(** * IP resolution and geolocation lookup of [app.py]

    A shallow embedding of the three functions of [app.py] that take
    decisions: [get_ip_address], [get_geolocation_data] and the route
    [index].  Python values are a small inductive type, the outside world
    (the two HTTP services) is an oracle, and the effects of the code
    (the module-level dictionary [IP_CACHE], object creation, outbound
    calls, exceptions) are threaded through a state-and-exception monad.

    Console output ([print]) and the rendering of the template are not
    modelled: [index] ends with the two values it hands to the template. *)

From Stdlib Require Import ZArith String Ascii List.
From stdpp Require Import gmap strings list fin_maps.

Local Open Scope Z_scope.

(** ** Python values *)

#[local] Set Warnings "-register-all".

(** The values [response.json()] can produce, which are also the values the
    code builds itself.  A JSON number is kept as the decimal it was written
    as, [mantissa * 10 ^ exponent]; the code never computes with one.  A
    dictionary is the list of its items; a key is looked up from the left. *)
Inductive value : Type :=
  | VNone
  | VBool (b : bool)
  | VNum (mantissa exponent : Z)
  | VStr (s : string)
  | VList (items : list value)
  | VDict (items : list (string * value)).

(** [v == s] for a string literal [s]: only a [str] with the same characters
    compares equal. *)
Definition eq_str (v : value) (s : string) : bool :=
  match v with
  | VStr t => bool_decide (t = s)
  | _ => false
  end.

Fixpoint assoc (key : string) (items : list (string * value)) : option value :=
  match items with
  | [] => None
  | (k, v) :: rest => if bool_decide (k = key) then Some v else assoc key rest
  end.

(** ** String methods *)

(** [str.isspace] on the code points a header can hold (WSGI strings are
    Latin-1, one character per byte). *)
Definition isspace (c : ascii) : bool :=
  let n := nat_of_ascii c in
  ((9 <=? n)%nat && (n <=? 13)%nat) || ((28 <=? n)%nat && (n <=? 32)%nat)
  || (n =? 133)%nat || (n =? 160)%nat.

Fixpoint lstrip (s : string) : string :=
  match s with
  | EmptyString => EmptyString
  | String c r => if isspace c then lstrip r else s
  end.

Fixpoint rstrip (s : string) : string :=
  match s with
  | EmptyString => EmptyString
  | String c r =>
      match rstrip r with
      | EmptyString => if isspace c then EmptyString else String c EmptyString
      | r' => String c r'
      end
  end.

(** [s.strip()] *)
Definition strip (s : string) : string := rstrip (lstrip s).

(** [s.split(sep)] for a one-character separator; never the empty list. *)
Fixpoint split (sep : ascii) (s : string) : list string :=
  match s with
  | EmptyString => [EmptyString]
  | String c r =>
      if Ascii.eqb c sep then EmptyString :: split sep r
      else match split sep r with
           | f :: fs => String c f :: fs
           | [] => [String c EmptyString]
           end
  end.

(** [s.startswith(p)] *)
Fixpoint startswith (p s : string) : bool :=
  match p, s with
  | EmptyString, _ => true
  | String _ _, EmptyString => false
  | String a p', String b s' => Ascii.eqb a b && startswith p' s'
  end.

(** [needle in hay] for two strings: [needle] occurs somewhere in [hay]. *)
Fixpoint contains (needle hay : string) : bool :=
  startswith needle hay ||
  match hay with
  | EmptyString => false
  | String _ r => contains needle r
  end.

(** ** Exceptions *)

(** The exceptions the three functions can meet.  [RequestsJSONDecodeError]
    is [requests.exceptions.JSONDecodeError]; [JSONDecodeError] is the one of
    the [json] module. *)
Inductive exn : Type :=
  | ConnectionError
  | Timeout
  | TooManyRedirects
  | HTTPError
  | RequestsJSONDecodeError
  | JSONDecodeError
  | KeyError
  | TypeError
  | AttributeError.

(** The classes named in the [except] clauses. *)
Inductive exn_class : Type :=
  | cls_HTTPError
  | cls_RequestException
  | cls_ValueError.

(** [isinstance(e, c)], from the class declarations of [requests.exceptions]:
    [HTTPError], [ConnectionError], [Timeout] and [TooManyRedirects] derive
    from [RequestException]; [JSONDecodeError(InvalidJSONError,
    json.JSONDecodeError)] with [InvalidJSONError(RequestException)] derives
    from both [RequestException] and [ValueError]; [json.JSONDecodeError]
    derives from [ValueError] alone. *)
Definition isinstance (e : exn) (c : exn_class) : bool :=
  match c, e with
  | cls_HTTPError, HTTPError => true
  | cls_RequestException,
      (ConnectionError | Timeout | TooManyRedirects | HTTPError
       | RequestsJSONDecodeError) => true
  | cls_ValueError, (RequestsJSONDecodeError | JSONDecodeError) => true
  | _, _ => false
  end.

(** What [response.json()] raises on a body that is not JSON depends on the
    installed release of [requests]: before 2.27 the decoder's own
    [ValueError], from 2.27 on [requests.exceptions.JSONDecodeError]. *)
Inductive requests_release : Type :=
  | Before_2_27
  | From_2_27.

Definition json_error (rel : requests_release) : exn :=
  match rel with
  | Before_2_27 => JSONDecodeError
  | From_2_27 => RequestsJSONDecodeError
  end.

(** ** The outside world *)

(** A response as the code looks at it: the status line and what
    [json()] makes of the body ([None] when the body is not JSON). *)
Record response : Type := Response {
  status_code : Z;
  json_body : option value
}.

(** The statuses [raise_for_status] objects to: client errors
    [400 <= code < 500] and server errors [500 <= code < 600]. *)
Definition bad_status (code : Z) : bool :=
  ((400 <=? code) && (code <? 500)) || ((500 <=? code) && (code <? 600)).

(** Why [requests.get] came back without a response. *)
Inductive transport_failure : Type :=
  | Unreachable
  | TimedOut
  | RedirectLoop.

Definition transport_exn (f : transport_failure) : exn :=
  match f with
  | Unreachable => ConnectionError
  | TimedOut => Timeout
  | RedirectLoop => TooManyRedirects
  end.

Inductive reply : Type :=
  | NoReply (f : transport_failure)
  | Reply (r : response).

(** The network answers a GET of a URL, and may answer differently
    depending on the calls made before it. *)
Definition network : Type := list string → string → reply.

(** ** Program state *)

(** A dictionary object: the identity Python's [is] compares, and its
    items.  No function of the module changes a dictionary it has built. *)
Record obj : Type := Obj {
  oid : nat;
  content : value
}.

Record state : Type := State {
  IP_CACHE : gmap string obj;   (* the module-level dictionary *)
  next_oid : nat;               (* identity of the next object created *)
  sent : list string            (* URLs requested so far, oldest first *)
}.

Inductive result (A : Type) : Type :=
  | Ok (a : A)
  | Raise (e : exn).
Arguments Ok {A} a.
Arguments Raise {A} e.

(** A Python computation: it ends with a value or an exception, and the
    state changes it made stay in either case. *)
Definition py (A : Type) : Type := state → result A * state.

#[global] Instance py_ret : MRet py := λ A a st, (Ok a, st).

#[global] Instance py_bind : MBind py := λ A B f m st,
  match m st with
  | (Ok a, st') => f a st'
  | (Raise e, st') => (Raise e, st')
  end.

Definition raise {A : Type} (e : exn) : py A := λ st, (Raise e, st).

(** [try: body  except ...:] where [handlers e] is the suite of the first
    clause that matches [e], if one does. *)
Definition try_except {A : Type} (body : py A) (handlers : exn → option (py A))
  : py A := λ st,
  match body st with
  | (Ok a, st') => (Ok a, st')
  | (Raise e, st') =>
      match handlers e with
      | Some h => h st'
      | None => (Raise e, st')
      end
  end.

(** A dictionary display or a decoded JSON document: a new object. *)
Definition new_object (v : value) : py obj := λ st,
  (Ok (Obj (next_oid st) v),
   State (IP_CACHE st) (S (next_oid st)) (sent st)).

Definition cache_lookup (key : string) : py (option obj) := λ st,
  (Ok (IP_CACHE st !! key), st).

(** [IP_CACHE[key] = o] *)
Definition cache_store (key : string) (o : obj) : py unit := λ st,
  (Ok tt, State (<[key := o]> (IP_CACHE st)) (next_oid st) (sent st)).

(** [d.get(key, default)]: only a dictionary has the method. *)
Definition dict_get (d : value) (key : string) (default : value) : py value :=
  match d with
  | VDict items => mret (from_option id default (assoc key items))
  | _ => raise AttributeError
  end.

(** [d[key]] for a string [key]. *)
Definition subscript (d : value) (key : string) : py value :=
  match d with
  | VDict items =>
      match assoc key items with
      | Some v => mret v
      | None => raise KeyError
      end
  | _ => raise TypeError
  end.

(** [needle in v] for a string [needle]: substring of a string, element of
    a list, key of a dictionary; the other values are no containers. *)
Definition py_in (needle : string) (v : value) : py bool :=
  match v with
  | VStr s => mret (contains needle s)
  | VList items => mret (existsb (λ x, eq_str x needle) items)
  | VDict items => mret (bool_decide (is_Some (assoc needle items)))
  | _ => raise TypeError
  end.

(** ** The three functions *)

Section App.

(** The installed [requests] and the network are fixed for a run. *)
Variable rel : requests_release.
Variable net : network.

(** [requests.get(url)]: the call is made, then either a response comes
    back or a [RequestException] of the transport is raised. *)
Definition requests_get (url : string) : py response := λ st,
  let st' := State (IP_CACHE st) (next_oid st) (sent st ++ [url]) in
  match net (sent st) url with
  | NoReply f => (Raise (transport_exn f), st')
  | Reply r => (Ok r, st')
  end.

(** [response.raise_for_status()]: [HTTPError] for a 4xx or 5xx status. *)
Definition raise_for_status (r : response) : py unit :=
  if bad_status (status_code r) then raise HTTPError else mret tt.

(** [response.json()], for a body the decoder either turns into a value or
    refuses as malformed JSON.  A body on which the decoder gives up for
    another reason (nesting beyond the interpreter's recursion limit, an
    integer beyond its digit limit) is not among the responses modelled. *)
Definition response_json (r : response) : py value :=
  match json_body r with
  | Some v => mret v
  | None => raise (json_error rel)
  end.

(** The request as [get_ip_address] reads it:
    [request.headers.getlist("X-Forwarded-For")] and
    [request.remote_addr] (a [str] or [None]). *)
Record request : Type := Request {
  x_forwarded_for : list string;
  remote_addr : option string
}.

(** [v.split(',')[0]] *)
Definition first_field (v : string) : string :=
  match split "," v with
  | f :: _ => f
  | [] => EmptyString
  end.

(** The address [get_ip_address] holds before its loopback test. *)
Definition candidate (req : request) : value :=
  match x_forwarded_for req with
  | v :: _ => VStr (strip (first_field v))
  | [] =>
      match remote_addr req with
      | Some a => VStr a
      | None => VNone
      end
  end.

Definition ipify_url : string := "https://api64.ipify.org?format=json".

Definition get_ip_address (req : request) : py value :=
  let ip_address := candidate req in
  if eq_str ip_address "127.0.0.1" then
    try_except
      (response ← requests_get ipify_url;
       raise_for_status response;;
       data ← response_json response;
       subscript data "ip")
      (λ e,
         if isinstance e cls_RequestException
         then Some (mret (VStr "Unable to fetch public IP"))
         else None)
  else mret ip_address.

(** [f"http://ip-api.com/json/{ip_address}"] *)
Definition api_url (ip_address : string) : string :=
  "http://ip-api.com/json/" +:+ ip_address.

(** [{"error": True, "message": msg}] *)
Definition failure (msg : value) : value :=
  VDict [("error", VBool true); ("message", msg)].

Definition get_geolocation_data (ip_address : string) : py obj :=
  cached ← cache_lookup ip_address;
  match cached with
  | Some o => mret o
  | None =>
      try_except
        (response ← requests_get (api_url ip_address);
         raise_for_status response;;
         parsed ← response_json response;
         data ← new_object parsed;
         status ← dict_get (content data) "status" VNone;
         if eq_str status "success" then
           cache_store ip_address data;;
           mret data
         else
           message ← dict_get (content data) "message"
                       (VStr "Failed to get geolocation data.");
           new_object (failure message))
        (λ e,
           if isinstance e cls_HTTPError then
             Some (new_object
                     (failure (VStr "Service unavailable or invalid IP.")))
           else if isinstance e cls_RequestException then
             Some (new_object
                     (failure
                        (VStr "Network error while fetching geolocation data.")))
           else if isinstance e cls_ValueError then
             Some (new_object
                     (failure (VStr "Error processing geolocation data.")))
           else None)
  end.

(** [get_geolocation_data(user_ip)] as [index] calls it.  After its own
    [in] test [index] holds a string, a list or a dictionary, and
    [ip_address in IP_CACHE] hashes its key first: a list or a dictionary
    is refused with [TypeError]. *)
Definition lookup_value (user_ip : value) : py obj :=
  match user_ip with
  | VStr s => get_geolocation_data s
  | _ => raise TypeError
  end.

(** The route: the keyword arguments of [render_template]. *)
Definition index (req : request) : py (value * obj) :=
  user_ip ← get_ip_address req;
  unable ← py_in "Unable" user_ip;
  location_data ←
    (if unable : bool
     then new_object
            (failure (VStr "Could not determine your IP address."))
     else lookup_value user_ip);
  mret (user_ip, location_data).

End App.

(** ** Derived notions and sample data *)

(** The record is one the code treats as a success:
    [data.get('status') == 'success']. *)
Definition is_success (v : value) : bool :=
  match v with
  | VDict items => eq_str (from_option id VNone (assoc "status" items)) "success"
  | _ => false
  end.

(** The reply is one on which [get_geolocation_data] reaches its
    [IP_CACHE[ip_address] = data]: no 4xx or 5xx status, a JSON body, and
    that body a success record. *)
Definition fetch_succeeds (r : reply) : bool :=
  match r with
  | Reply (Response code (Some v)) =>
      negb (bad_status code) && is_success v
  | _ => false
  end.

(** The ways a fetch fails: no response, an error status, a body that is
    not JSON, a JSON body that is no success record. *)
Definition failure_path (r : reply) : Prop :=
  (∃ f, r = NoReply f)
  ∨ (∃ rsp, r = Reply rsp
       ∧ (bad_status (status_code rsp) = true
          ∨ json_body rsp = None
          ∨ ∃ v, json_body rsp = Some v ∧ is_success v = false)).

(** The state after the one call of a cache miss that stores nothing, with
    [k] objects created. *)
Definition called (ip : string) (k : nat) (st : state) : state :=
  State (IP_CACHE st) (k + next_oid st) (sent st ++ [api_url ip]).

(** The state after the call to the discovery service. *)
Definition discovered (st : state) : state :=
  State (IP_CACHE st) (next_oid st) (sent st ++ [ipify_url]).

(** What a computation handed back, when it handed back an object. *)
Definition returned {A : Type} (r : result A * state) : option A :=
  match r.1 with
  | Ok a => Some a
  | Raise _ => None
  end.

(** [n] lookups of the same address, one after the other: the state they
    leave. *)
Fixpoint repeat_lookup (rel : requests_release) (net : network)
    (n : nat) (ip : string) (st : state) : state :=
  match n with
  | O => st
  | S k => repeat_lookup rel net k ip (get_geolocation_data rel net ip st).2
  end.

(** The records the code builds for its failures. *)
Definition could_not_determine : value :=
  failure (VStr "Could not determine your IP address.").
Definition service_unavailable : value :=
  failure (VStr "Service unavailable or invalid IP.").
Definition network_error : value :=
  failure (VStr "Network error while fetching geolocation data.").
Definition processing_error : value :=
  failure (VStr "Error processing geolocation data.").

(** The message of an upstream failure: [data.get('message', default)]. *)
Definition upstream_message (items : list (string * value)) : value :=
  from_option id (VStr "Failed to get geolocation data.") (assoc "message" items).

(** A process that has just started. *)
Definition fresh : state := State ∅ 0 [].

(** A network on which every call gets the same response. *)
Definition always (r : response) : network := λ _ _, Reply r.

(** A network that cannot be reached. *)
Definition offline : network := λ _ _, NoReply Unreachable.

(** A process that has looked up ["8.8.8.8"] with success. *)
Definition warm (items : list (string * value)) : state :=
  State {[ "8.8.8.8" := Obj 0 (VDict items) ]} 1 [api_url "8.8.8.8"].

Definition mountain_view : list (string * value) :=
  [("status", VStr "success"); ("country", VStr "US");
   ("regionName", VStr "CA"); ("city", VStr "Mountain View");
   ("zip", VStr "94043"); ("lat", VNum 374 (-1)); ("lon", VNum (-1221) (-1));
   ("isp", VStr "Example ISP")].

Definition private_range : list (string * value) :=
  [("status", VStr "fail"); ("message", VStr "private range")].

(** ** Serving several requests *)

(** The page requests of a list, handled one after the other by [index]:
    the state they leave.  What a request returned, or raised, does not
    stop the process. *)
Fixpoint serve (rel : requests_release) (net : network)
    (reqs : list request) (st : state) : state :=
  match reqs with
  | [] => st
  | req :: rest => serve rel net rest (index rel net req st).2
  end.

(** Every cached record is a success record, fetched by a call that was
    sent for its address. *)
Definition cache_sound (st : state) : Prop :=
  ∀ ip o, IP_CACHE st !! ip = Some o →
    is_success (content o) = true ∧ api_url ip ∈ sent st.

(** ** The files [create_template_files] writes *)

(** The working directory as the function sees it: plain names, regular
    files and directories.  Links, permissions and a full disk are outside
    the model. *)
Inductive node : Type :=
  | File (data : string)
  | Dir (entries : gmap string node).

Inductive os_error : Type :=
  | FileExistsError
  | FileNotFoundError
  | NotADirectoryError
  | IsADirectoryError.

Inductive outcome (A : Type) : Type :=
  | Done (a : A)
  | Failed (e : os_error).
Arguments Done {A} a.
Arguments Failed {A} e.

(** A computation on the working directory; what was written before an
    error stays written. *)
Definition io (A : Type) : Type :=
  gmap string node → outcome A * gmap string node.

#[global] Instance io_ret : MRet io := λ A a fs, (Done a, fs).

#[global] Instance io_bind : MBind io := λ A B f m fs,
  match m fs with
  | (Done a, fs') => f a fs'
  | (Failed e, fs') => (Failed e, fs')
  end.

(** The node a relative path names, given as its components. *)
Fixpoint node_at (path : list string) (entries : gmap string node)
  : option node :=
  match path with
  | [] => None
  | [name] => entries !! name
  | d :: rest =>
      match entries !! d with
      | Some (Dir sub) => node_at rest sub
      | _ => None
      end
  end.

(** [os.makedirs]: every missing directory of the path is made; the last
    one must not exist. *)
Fixpoint makedirs_at (path : list string) (entries : gmap string node)
  : outcome (gmap string node) :=
  match path with
  | [] => Failed FileNotFoundError
  | [name] =>
      match entries !! name with
      | Some _ => Failed FileExistsError
      | None => Done (<[name := Dir ∅]> entries)
      end
  | d :: rest =>
      match entries !! d with
      | Some (File _) => Failed NotADirectoryError
      | Some (Dir sub) =>
          match makedirs_at rest sub with
          | Done sub' => Done (<[d := Dir sub']> entries)
          | Failed e => Failed e
          end
      | None =>
          match makedirs_at rest ∅ with
          | Done sub' => Done (<[d := Dir sub']> entries)
          | Failed e => Failed e
          end
      end
  end.

(** [open(path, 'w')], [write(data)] and the close: the file is made or
    replaced; its directory must be there. *)
Fixpoint write_at (path : list string) (data : string)
    (entries : gmap string node) : outcome (gmap string node) :=
  match path with
  | [] => Failed FileNotFoundError
  | [name] =>
      match entries !! name with
      | Some (Dir _) => Failed IsADirectoryError
      | _ => Done (<[name := File data]> entries)
      end
  | d :: rest =>
      match entries !! d with
      | None => Failed FileNotFoundError
      | Some (File _) => Failed NotADirectoryError
      | Some (Dir sub) =>
          match write_at rest data sub with
          | Done sub' => Done (<[d := Dir sub']> entries)
          | Failed e => Failed e
          end
      end
  end.

(** [os.path.exists(path)] *)
Definition os_path_exists (path : string) : io bool := λ fs,
  (Done (bool_decide (is_Some (node_at (split "/" path) fs))), fs).

(** [os.makedirs(path)] *)
Definition os_makedirs (path : string) : io unit := λ fs,
  match makedirs_at (split "/" path) fs with
  | Done fs' => (Done tt, fs')
  | Failed e => (Failed e, fs)
  end.

(** [with open(path, 'w') as f: f.write(data)] *)
Definition write_file (path data : string) : io unit := λ fs,
  match write_at (split "/" path) data fs with
  | Done fs' => (Done tt, fs')
  | Failed e => (Failed e, fs)
  end.

Section Templates.

(** The two texts the function holds; it writes them as they are. *)
Variable html_content : string.
Variable css_content : string.

Definition create_template_files : io unit :=
  templates ← os_path_exists "templates";
  (if negb templates then os_makedirs "templates" else mret tt);;
  static ← os_path_exists "static";
  (if negb static then os_makedirs "static" else mret tt);;
  write_file "templates/index.html" html_content;;
  write_file "static/style.css" css_content.

End Templates.

(** The text of a regular file, if the path names one. *)
Definition read_file (path : string) (fs : gmap string node) : option string :=
  match node_at (split "/" path) fs with
  | Some (File data) => Some data
  | _ => None
  end.

(** The directory [name] can take the file [file]: it is absent or a
    directory, and in it [file] is not a directory. *)
Definition can_hold (name file : string) (fs : gmap string node) : bool :=
  match fs !! name with
  | None => true
  | Some (File _) => false
  | Some (Dir sub) =>
      match sub !! file with
      | Some (Dir _) => false
      | _ => true
      end
  end.

(** The entries of the directory [name], none when it is absent. *)
Definition entries_of (name : string) (fs : gmap string node)
  : gmap string node :=
  match fs !! name with
  | Some (Dir sub) => sub
  | _ => ∅
  end.

(** The directory [name] is there afterwards: what
    [if not os.path.exists(name): os.makedirs(name)] leaves. *)
Definition ensure_dir (name : string) (fs : gmap string node)
  : gmap string node :=
  match fs !! name with
  | Some _ => fs
  | None => <[name := Dir ∅]> fs
  end.

(** The file [file] of the directory [name] holds [data]. *)
Definition with_file (name file data : string) (fs : gmap string node)
  : gmap string node :=
  <[name := Dir (<[file := File data]> (entries_of name fs))]> fs.

(** ** More sample data *)

(** A network on which discovery names [ip] and every lookup gets the
    record [items]. *)
Definition services (ip : string) (items : list (string * value)) : network :=
  λ _ url,
    if bool_decide (url = ipify_url)
    then Reply (Response 200 (Some (VDict [("ip", VStr ip)])))
    else Reply (Response 200 (Some (VDict items))).

(** A working directory left by an earlier run, with a page of its own. *)
Definition earlier_run : gmap string node :=
  {[ "templates" := Dir {[ "index.html" := File "old page";
                           "about.html" := File "about" ]};
     "notes.txt" := File "keep" ]}.

(** A working directory in which [templates] is a regular file. *)
Definition templates_is_a_file : gmap string node :=
  {[ "templates" := File "not a directory" ]}.

(** ** The candidate address, in words *)

(** Every character of the string is white space. *)
Fixpoint all_space (s : string) : bool :=
  match s with
  | EmptyString => true
  | String c r => isspace c && all_space r
  end.

(** [f] is the first comma-separated value of [v]: it holds no comma, and
    [v] is [f] alone or [f], a comma and more. *)
Definition first_comma_value (v f : string) : Prop :=
  contains "," f = false
  ∧ (v = f ∨ ∃ more, v = f +:+ String "," more).

(** [s] is [l] trimmed of white space: [l] is [s] between two runs of
    white space, and [s] neither starts nor ends with white space. *)
Definition trimmed (l s : string) : Prop :=
  (∃ lead trail,
     l = lead +:+ s +:+ trail
     ∧ all_space lead = true ∧ all_space trail = true)
  ∧ (∀ c r, s = String c r → isspace c = false)
  ∧ (∀ r c, s = r +:+ String c EmptyString → isspace c = false).

(** The remote address as a value. *)
Definition remote_value (req : request) : value :=
  match remote_addr req with
  | Some a => VStr a
  | None => VNone
  end.

(** The candidate described without the string methods: when the request
    carries at least one [X-Forwarded-For] value, the first comma-separated
    value of the first of them, trimmed; the remote address otherwise. *)
Definition described_candidate (req : request) (c : value) : Prop :=
  match x_forwarded_for req with
  | v :: _ => ∃ f s, first_comma_value v f ∧ trimmed f s ∧ c = VStr s
  | [] => c = remote_value req
  end.

(** The candidate when a header sent with an empty value counts as no
    header: the reading of "present and non-empty" by the header's value. *)
Definition candidate_by_value (req : request) : value :=
  match x_forwarded_for req with
  | v :: _ =>
      if bool_decide (v = EmptyString) then remote_value req
      else VStr (strip (first_field v))
  | [] => remote_value req
  end.

(** ** Basic facts *)

Lemma eq_str_true (v : value) (s : string) : eq_str v s = true ↔ v = VStr s.
Proof.
  destruct v; simpl; try (split; [discriminate | congruence]).
  rewrite bool_decide_eq_true. split; congruence.
Qed.

Lemma eq_str_false (v : value) (s : string) : eq_str v s = false ↔ v ≠ VStr s.
Proof.
  rewrite <- eq_str_true. destruct (eq_str v s); split; congruence.
Qed.

(** One step of a sequence, when the first computation is known. *)
Lemma bind_ok {A B : Type} (m : py A) (f : A → py B) st a st' :
  m st = (Ok a, st') → (m ≫= f) st = f a st'.
Proof. intros H. unfold mbind, py_bind. by rewrite H. Qed.

Lemma bind_raise {A B : Type} (m : py A) (f : A → py B) st e st' :
  m st = (Raise e, st') → (m ≫= f) st = (Raise e, st').
Proof. intros H. unfold mbind, py_bind. by rewrite H. Qed.

(** Unfolds the primitive computations, leaving the case analysis. *)
Ltac run :=
  unfold try_except, requests_get, raise_for_status, response_json,
    new_object, cache_lookup, cache_store, dict_get, subscript, py_in, raise,
    mbind, mret, py_bind, py_ret in *;
  simpl in *.

(** ** The resolver *)

Section Resolver.

Variable rel : requests_release.
Variable net : network.

Lemma get_ip_address_other req st :
  candidate req ≠ VStr "127.0.0.1" →
  get_ip_address rel net req st = (Ok (candidate req), st).
Proof.
  intros Hne. apply eq_str_false in Hne.
  unfold get_ip_address. by rewrite Hne.
Qed.

(** On the loopback candidate the discovery service is called, once,
    whatever it answers. *)
Lemma get_ip_address_loopback req st :
  candidate req = VStr "127.0.0.1" →
  sent (get_ip_address rel net req st).2 = sent st ++ [ipify_url].
Proof.
  intros Heq. unfold get_ip_address. rewrite Heq. simpl. run.
  destruct (net (sent st) ipify_url) as [f | r]; simpl.
  - by destruct f.
  - destruct (bad_status (status_code r)); simpl; [done |].
    destruct (json_body r) as [v |]; simpl.
    + destruct v as [| | | | | items]; simpl; try done.
      by destruct (assoc "ip" items).
    + by destruct rel.
Qed.

Lemma get_ip_address_no_reply req st f :
  candidate req = VStr "127.0.0.1" →
  net (sent st) ipify_url = NoReply f →
  get_ip_address rel net req st
  = (Ok (VStr "Unable to fetch public IP"), discovered st).
Proof.
  intros Heq Hnet. unfold get_ip_address. rewrite Heq. simpl. run.
  rewrite Hnet. by destruct f.
Qed.

Lemma get_ip_address_bad_status req st r :
  candidate req = VStr "127.0.0.1" →
  net (sent st) ipify_url = Reply r →
  bad_status (status_code r) = true →
  get_ip_address rel net req st
  = (Ok (VStr "Unable to fetch public IP"), discovered st).
Proof.
  intros Heq Hnet Hbad. unfold get_ip_address. rewrite Heq. simpl. run.
  by rewrite Hnet, Hbad.
Qed.

(** The value under ["ip"] is returned as it is, string or not. *)
Lemma get_ip_address_discovered req st code items v :
  candidate req = VStr "127.0.0.1" →
  net (sent st) ipify_url = Reply (Response code (Some (VDict items))) →
  bad_status code = false →
  assoc "ip" items = Some v →
  get_ip_address rel net req st = (Ok v, discovered st).
Proof.
  intros Heq Hnet Hbad Hip. unfold get_ip_address. rewrite Heq. simpl. run.
  rewrite Hnet. simpl. by rewrite Hbad, Hip.
Qed.

(** [KeyError] is no [RequestException]: it leaves the function. *)
Lemma get_ip_address_missing_key req st code items :
  candidate req = VStr "127.0.0.1" →
  net (sent st) ipify_url = Reply (Response code (Some (VDict items))) →
  bad_status code = false →
  assoc "ip" items = None →
  get_ip_address rel net req st = (Raise KeyError, discovered st).
Proof.
  intros Heq Hnet Hbad Hip. unfold get_ip_address. rewrite Heq. simpl. run.
  rewrite Hnet. simpl. by rewrite Hbad, Hip.
Qed.

(** So does the [TypeError] of subscripting a document that is no
    object. *)
Lemma get_ip_address_not_a_dict req st code v :
  candidate req = VStr "127.0.0.1" →
  net (sent st) ipify_url = Reply (Response code (Some v)) →
  bad_status code = false →
  (∀ items, v ≠ VDict items) →
  get_ip_address rel net req st = (Raise TypeError, discovered st).
Proof.
  intros Heq Hnet Hbad Hv. unfold get_ip_address. rewrite Heq. simpl. run.
  rewrite Hnet. simpl. rewrite Hbad. simpl.
  destruct v; try done. by destruct (Hv items).
Qed.

(** A body that is not JSON is caught only when the exception
    [response.json()] raises is a [RequestException]. *)
Lemma get_ip_address_not_json req st code :
  candidate req = VStr "127.0.0.1" →
  net (sent st) ipify_url = Reply (Response code None) →
  bad_status code = false →
  get_ip_address rel net req st
  = (match rel with
     | Before_2_27 => Raise JSONDecodeError
     | From_2_27 => Ok (VStr "Unable to fetch public IP")
     end, discovered st).
Proof.
  intros Heq Hnet Hbad. unfold get_ip_address. rewrite Heq. simpl. run.
  rewrite Hnet. simpl. rewrite Hbad. by destruct rel.
Qed.

End Resolver.

(** How the candidate is chosen: the first [X-Forwarded-For] value when
    [getlist] returns any, the remote address when it returns none. *)
Lemma candidate_forwarded v rest remote :
  candidate (Request (v :: rest) remote) = VStr (strip (first_field v)).
Proof. reflexivity. Qed.

Lemma candidate_direct remote :
  candidate (Request [] (Some remote)) = VStr remote.
Proof. reflexivity. Qed.

(** A header sent with an empty value is still in the list [getlist]
    returns: the candidate is then the empty string, not the remote
    address. *)
Lemma candidate_empty_header_value remote :
  candidate (Request [""] remote) = VStr "".
Proof. reflexivity. Qed.

(** [first_field] stops at the first comma and holds none. *)
Lemma first_field_cons c r :
  first_field (String c r) =
    if Ascii.eqb c "," then EmptyString else String c (first_field r).
Proof.
  unfold first_field. simpl. destruct (Ascii.eqb c ","); [done |].
  by destruct (split "," r).
Qed.

Lemma first_field_prefix v :
  v = first_field v ∨ ∃ tail, v = first_field v +:+ String "," tail.
Proof.
  induction v as [| c r IH]; [by left |].
  rewrite first_field_cons. destruct (Ascii.eqb_spec c ",") as [-> | Hc].
  - right. by exists r.
  - destruct IH as [IH | [tail IH]].
    + left. by rewrite <- IH.
    + right. exists tail.
      change (String c r = String c (first_field r +:+ String "," tail)).
      by rewrite <- IH.
Qed.

Lemma first_field_no_comma v : contains "," (first_field v) = false.
Proof.
  induction v as [| c r IH]; [done |].
  rewrite first_field_cons. destruct (Ascii.eqb_spec c ",") as [-> | Hc]; [done |].
  change (Ascii.eqb "," c && true || contains "," (first_field r) = false).
  rewrite IH, orb_false_r, andb_true_r.
  apply Ascii.eqb_neq. congruence.
Qed.

(** [strip] leaves no white space at either end. *)
Lemma lstrip_head s c r : lstrip s = String c r → isspace c = false.
Proof.
  induction s as [| a t IH]; simpl; [done |].
  destruct (isspace a) eqn:Ha; [done |]. by intros [= <- _].
Qed.

Lemma rstrip_head s c r : rstrip s = String c r → ∃ t, s = String c t.
Proof.
  destruct s as [| a t]; simpl; [done |].
  destruct (rstrip t); [destruct (isspace a) |]; intros [= <- _]; eauto.
Qed.

Lemma strip_head s c r : strip s = String c r → isspace c = false.
Proof.
  unfold strip. intros H. apply rstrip_head in H as [t Ht].
  by apply lstrip_head in Ht.
Qed.

Lemma rstrip_last s c : rstrip s = String c EmptyString → isspace c = false.
Proof.
  revert c. induction s as [| a t IH]; simpl; intros c; [done |].
  destruct (rstrip t) as [| b u] eqn:Ht.
  - destruct (isspace a) eqn:Ha; [done |]. by intros [= <-].
  - done.
Qed.

(** ** The request handler *)

Lemma index_unable rel net req st s st' :
  get_ip_address rel net req st = (Ok (VStr s), st') →
  contains "Unable" s = true →
  index rel net req st =
    (Ok (VStr s, Obj (next_oid st') could_not_determine),
     State (IP_CACHE st') (S (next_oid st')) (sent st')).
Proof.
  intros Hip Hin. unfold index.
  erewrite bind_ok by exact Hip.
  run. by rewrite Hin.
Qed.

Lemma index_unable_forwarded rel net v rest remote st :
  contains "Unable" (strip (first_field v)) = true →
  index rel net (Request (v :: rest) remote) st =
    (Ok (VStr (strip (first_field v)), Obj (next_oid st) could_not_determine),
     State (IP_CACHE st) (S (next_oid st)) (sent st)).
Proof.
  intros Hin. apply index_unable; [| done].
  rewrite get_ip_address_other; [done |].
  rewrite candidate_forwarded. intros [= Heq].
  by rewrite Heq in Hin.
Qed.

(** An exception of the resolver leaves [index] as it is. *)
Lemma index_propagates rel net req st e st' :
  get_ip_address rel net req st = (Raise e, st') →
  index rel net req st = (Raise e, st').
Proof. intros Hip. unfold index. by erewrite bind_raise by exact Hip. Qed.

(** ** Claims about the resolver and the handler *)

(** C8, at the input on which it fails.  The request comes from the loopback
    address and the discovery service answers 200 with the JSON object [{}]:
    [response.json()['ip']] raises [KeyError], no [except] clause of
    [get_ip_address] matches it, and it leaves [index] too.  The release of
    [requests] plays no part. *)
Theorem discovery_without_ip_key_raises rel st :
  let net := always (Response 200 (Some (VDict []))) in
  let req := Request [] (Some "127.0.0.1") in
  get_ip_address rel net req st = (Raise KeyError, discovered st)
  ∧ index rel net req st = (Raise KeyError, discovered st).
Proof.
  intros net req.
  assert (get_ip_address rel net req st = (Raise KeyError, discovered st))
    as Hip by by apply (get_ip_address_missing_key rel net req st 200 []).
  split; [exact Hip | by apply index_propagates].
Qed.

(** C9. Whenever [get_ip_address] returns a string in which ["Unable"]
    occurs, [index] makes no lookup: the cache and the calls sent are those
    the resolver left, and the template receives that string together with
    a new failure record "Could not determine your IP address.".  This
    holds in particular for a string the client put in [X-Forwarded-For],
    for which no outbound call is made at all. *)
Theorem handler_unable_skips_lookup rel net :
  (∀ req st s st',
     get_ip_address rel net req st = (Ok (VStr s), st') →
     contains "Unable" s = true →
     index rel net req st =
       (Ok (VStr s, Obj (next_oid st') could_not_determine),
        State (IP_CACHE st') (S (next_oid st')) (sent st')))
  ∧ (∀ v rest remote st,
       contains "Unable" (strip (first_field v)) = true →
       index rel net (Request (v :: rest) remote) st =
         (Ok (VStr (strip (first_field v)),
              Obj (next_oid st) could_not_determine),
          State (IP_CACHE st) (S (next_oid st)) (sent st))).
Proof.
  split.
  - intros req st s st'. apply index_unable.
  - intros v rest remote st. apply index_unable_forwarded.
Qed.

(** C10. The loopback test is equality with the string ["127.0.0.1"], made
    on the candidate: either the candidate is that string and the discovery
    service is called, or it is not and the candidate is returned with the
    state untouched.  The candidate ["127.0.0.1"] taken from
    [X-Forwarded-For] triggers the call whatever the remote address is;
    ["::1"] and ["127.0.0.2"] are returned as they are, without a call. *)
Theorem loopback_test_is_exact rel net st :
  (∀ req,
     (candidate req = VStr "127.0.0.1"
      ∧ sent (get_ip_address rel net req st).2 = sent st ++ [ipify_url])
     ∨ (candidate req ≠ VStr "127.0.0.1"
        ∧ get_ip_address rel net req st = (Ok (candidate req), st)))
  ∧ (∀ rest remote,
       sent (get_ip_address rel net
               (Request ("127.0.0.1" :: rest) remote) st).2
       = sent st ++ [ipify_url])
  ∧ get_ip_address rel net (Request [] (Some "::1")) st
    = (Ok (VStr "::1"), st)
  ∧ get_ip_address rel net (Request [] (Some "127.0.0.2")) st
    = (Ok (VStr "127.0.0.2"), st)
  ∧ (∀ rest remote,
       get_ip_address rel net (Request ("::1" :: rest) remote) st
       = (Ok (VStr "::1"), st)).
Proof.
  split; [| split; [| split; [| split]]].
  - intros req. destruct (eq_str (candidate req) "127.0.0.1") eqn:Heq.
    + apply eq_str_true in Heq. left. split; [done |].
      by apply get_ip_address_loopback.
    + apply eq_str_false in Heq. right. split; [done |].
      by apply get_ip_address_other.
  - intros rest remote. by apply get_ip_address_loopback.
  - by apply (get_ip_address_other rel net (Request [] (Some "::1"))).
  - by apply (get_ip_address_other rel net (Request [] (Some "127.0.0.2"))).
  - intros rest remote.
    by apply (get_ip_address_other rel net (Request ("::1" :: rest) remote)).
Qed.

(** ** The lookup, case by case *)

Lemma bad_status_iff code : bad_status code = true ↔ 400 ≤ code < 600.
Proof. unfold bad_status. lia. Qed.

Lemma ok_status_not_bad code : 200 ≤ code < 300 → bad_status code = false.
Proof. unfold bad_status. lia. Qed.

Section Lookup.

Variable rel : requests_release.
Variable net : network.

Lemma lookup_hit ip st o :
  IP_CACHE st !! ip = Some o →
  get_geolocation_data rel net ip st = (Ok o, st).
Proof.
  intros Hhit. unfold get_geolocation_data. run. by rewrite Hhit.
Qed.

Lemma lookup_no_reply ip st f :
  IP_CACHE st !! ip = None →
  net (sent st) (api_url ip) = NoReply f →
  get_geolocation_data rel net ip st =
    (Ok (Obj (next_oid st) network_error), called ip 1 st).
Proof.
  intros Hmiss Hnet. unfold get_geolocation_data. run.
  rewrite Hmiss, Hnet. by destruct f.
Qed.

Lemma lookup_bad_status ip st r :
  IP_CACHE st !! ip = None →
  net (sent st) (api_url ip) = Reply r →
  bad_status (status_code r) = true →
  get_geolocation_data rel net ip st =
    (Ok (Obj (next_oid st) service_unavailable), called ip 1 st).
Proof.
  intros Hmiss Hnet Hbad. unfold get_geolocation_data. run.
  by rewrite Hmiss, Hnet, Hbad.
Qed.

Lemma lookup_not_json ip st code :
  IP_CACHE st !! ip = None →
  net (sent st) (api_url ip) = Reply (Response code None) →
  bad_status code = false →
  get_geolocation_data rel net ip st =
    (Ok (Obj (next_oid st)
           match rel with
           | Before_2_27 => processing_error
           | From_2_27 => network_error
           end),
     called ip 1 st).
Proof.
  intros Hmiss Hnet Hbad. unfold get_geolocation_data. run.
  rewrite Hmiss, Hnet. simpl. rewrite Hbad. by destruct rel.
Qed.

Lemma lookup_success ip st code items :
  IP_CACHE st !! ip = None →
  net (sent st) (api_url ip) = Reply (Response code (Some (VDict items))) →
  bad_status code = false →
  is_success (VDict items) = true →
  get_geolocation_data rel net ip st =
    (Ok (Obj (next_oid st) (VDict items)),
     State (<[ip := Obj (next_oid st) (VDict items)]> (IP_CACHE st))
           (S (next_oid st)) (sent st ++ [api_url ip])).
Proof.
  intros Hmiss Hnet Hbad Hok. unfold get_geolocation_data. run.
  rewrite Hmiss, Hnet. simpl. rewrite Hbad. simpl. by rewrite Hok.
Qed.

Lemma lookup_upstream_fail ip st code items :
  IP_CACHE st !! ip = None →
  net (sent st) (api_url ip) = Reply (Response code (Some (VDict items))) →
  bad_status code = false →
  is_success (VDict items) = false →
  get_geolocation_data rel net ip st =
    (Ok (Obj (S (next_oid st)) (failure (upstream_message items))),
     called ip 2 st).
Proof.
  intros Hmiss Hnet Hbad Hok. unfold get_geolocation_data. run.
  rewrite Hmiss, Hnet. simpl. rewrite Hbad. simpl. by rewrite Hok.
Qed.

(** A JSON document that is no object has no [get]: the
    [AttributeError] matches no clause. *)
Lemma lookup_not_a_dict ip st code v :
  IP_CACHE st !! ip = None →
  net (sent st) (api_url ip) = Reply (Response code (Some v)) →
  bad_status code = false →
  (∀ items, v ≠ VDict items) →
  get_geolocation_data rel net ip st = (Raise AttributeError, called ip 1 st).
Proof.
  intros Hmiss Hnet Hbad Hv. unfold get_geolocation_data. run.
  rewrite Hmiss, Hnet. simpl. rewrite Hbad. simpl.
  destruct v; try done. by destruct (Hv items).
Qed.

End Lookup.

Lemma is_success_iff items :
  is_success (VDict items) = true ↔ assoc "status" items = Some (VStr "success").
Proof.
  unfold is_success. rewrite eq_str_true.
  destruct (assoc "status" items) as [v |]; simpl; split; congruence.
Qed.

Lemma is_success_failure msg : is_success (failure msg) = false.
Proof. reflexivity. Qed.

Lemma failure_path_iff r : failure_path r ↔ fetch_succeeds r = false.
Proof.
  unfold failure_path. split.
  - intros [[f ->] | [rsp [-> H]]]; [done |].
    destruct rsp as [code body]. simpl in *.
    destruct H as [-> | [-> | [v [-> ->]]]]; [by destruct body | done |].
    apply andb_false_r.
  - destruct r as [f | [code [v |]]]; simpl; intros H.
    + left. by exists f.
    + right. eexists. split; [done |]. simpl.
      destruct (bad_status code); [by left |].
      right. right. exists v. by split.
    + right. eexists. split; [done |]. right. by left.
Qed.

Section LookupCases.

Variable rel : requests_release.
Variable net : network.

(** Every lookup is a hit, a miss whose fetch fails, or a miss whose
    fetch succeeds. *)
Lemma lookup_cases ip st :
  let after := get_geolocation_data rel net ip st in
  (∃ o, IP_CACHE st !! ip = Some o ∧ after = (Ok o, st))
  ∨ (IP_CACHE st !! ip = None
     ∧ fetch_succeeds (net (sent st) (api_url ip)) = false
     ∧ IP_CACHE after.2 = IP_CACHE st
     ∧ sent after.2 = sent st ++ [api_url ip]
     ∧ ∀ o, returned after = Some o → is_success (content o) = false)
  ∨ (IP_CACHE st !! ip = None
     ∧ fetch_succeeds (net (sent st) (api_url ip)) = true
     ∧ ∃ o, is_success (content o) = true
         ∧ after = (Ok o, State (<[ip := o]> (IP_CACHE st))
                             (S (next_oid st)) (sent st ++ [api_url ip]))).
Proof.
  intros after. subst after.
  destruct (IP_CACHE st !! ip) as [o |] eqn:Hc.
  { left. exists o. split; [done |]. by apply lookup_hit. }
  right.
  destruct (net (sent st) (api_url ip)) as [f | [code body]] eqn:Hnet.
  { left. rewrite (lookup_no_reply _ _ _ _ f) by done.
    repeat split; try done. by intros o [= <-]. }
  destruct (bad_status code) eqn:Hbad.
  { left. rewrite (lookup_bad_status _ _ _ _ _ Hc Hnet) by done.
    repeat split; try done.
    - simpl. rewrite Hbad. by destruct body.
    - by intros o [= <-]. }
  destruct body as [v |].
  2: { left. rewrite (lookup_not_json _ _ _ _ _ Hc Hnet) by done.
       repeat split; try done. intros o [= <-]. by destruct rel. }
  destruct (is_success v) eqn:Hok.
  - right. destruct v as [| | | | | items]; try done.
    repeat split; [by unfold fetch_succeeds; rewrite Hbad, Hok |].
    eexists. split; [| by apply (lookup_success _ _ _ _ code items)]. done.
  - left. destruct v as [| | | | | items].
    6: { rewrite (lookup_upstream_fail _ _ _ _ code items) by done.
         repeat split; try done.
         - by unfold fetch_succeeds; rewrite Hbad, Hok.
         - by intros o [= <-]. }
    all: erewrite lookup_not_a_dict by (try eassumption; done).
    all: repeat split; try done; apply andb_false_r.
Qed.

Lemma lookup_failure_keeps_cache ip st :
  fetch_succeeds (net (sent st) (api_url ip)) = false →
  IP_CACHE (get_geolocation_data rel net ip st).2 = IP_CACHE st.
Proof.
  intros Hf.
  destruct (lookup_cases ip st) as [[o [_ ->]] | [[_ [_ [H _]]] | [_ [H _]]]];
    [done | done | congruence].
Qed.

(** [n] lookups of an address that is not cached, on a network that never
    gives a success record for it: [n] calls, and still not cached. *)
Lemma repeat_lookup_failing ip :
  (∀ history, fetch_succeeds (net history (api_url ip)) = false) →
  ∀ n st,
    IP_CACHE st !! ip = None →
    sent (repeat_lookup rel net n ip st) = sent st ++ replicate n (api_url ip)
    ∧ IP_CACHE (repeat_lookup rel net n ip st) = IP_CACHE st.
Proof.
  intros Hfail n. induction n as [| n IH]; intros st Hmiss; simpl.
  - by rewrite app_nil_r.
  - destruct (lookup_cases ip st)
      as [[o [H _]] | [[_ [_ [Hc [Hs _]]]] | [_ [H _]]]].
    + congruence.
    + destruct (IH (get_geolocation_data rel net ip st).2) as [IHs IHc].
      { by rewrite Hc. }
      rewrite IHs, IHc, Hs, Hc. by rewrite <- app_assoc.
    + by rewrite Hfail in H.
Qed.

End LookupCases.

(** ** Claims about the lookup and the cache *)

(** C2. For an address that is not cached, when the geolocation service
    answers with a 2xx status and a JSON object whose [status] is
    ["success"], [get_geolocation_data] returns an object holding exactly
    the items received, and afterwards the cache maps the address to that
    same object. *)
Theorem lookup_success_returns_and_caches rel net ip st code items :
  IP_CACHE st !! ip = None →
  net (sent st) (api_url ip) = Reply (Response code (Some (VDict items))) →
  200 ≤ code < 300 →
  assoc "status" items = Some (VStr "success") →
  ∃ o st',
    get_geolocation_data rel net ip st = (Ok o, st')
    ∧ content o = VDict items
    ∧ IP_CACHE st' !! ip = Some o.
Proof.
  intros Hmiss Hnet Hcode Hok.
  eexists _, _. split; [| split].
  - apply (lookup_success rel net ip st code items); try done.
    + by apply ok_status_not_bad.
    + by apply is_success_iff.
  - done.
  - simpl. apply lookup_insert_eq.
Qed.


(** C3. A cached address is answered with the very object the cache holds
    (same identity, same items) and the state is untouched, so no call is
    made.  Hence, for an address that is not cached and for which the
    service answers with a success record, the first lookup sends one call
    and returns the record, a second lookup returns the same object and
    sends nothing: the two lookups together have added exactly one call,
    to the geolocation URL of that address.  The same holds when all that
    is known of the first lookup is that it returned a success record. *)
Theorem cache_hit_returns_cached_object rel net ip :
  (∀ st o,
     IP_CACHE st !! ip = Some o →
     get_geolocation_data rel net ip st = (Ok o, st))
  ∧ (∀ st code items,
       IP_CACHE st !! ip = None →
       net (sent st) (api_url ip)
       = Reply (Response code (Some (VDict items))) →
       ¬ (400 ≤ code < 600) →
       assoc "status" items = Some (VStr "success") →
       ∃ o st1,
         get_geolocation_data rel net ip st = (Ok o, st1)
         ∧ content o = VDict items
         ∧ sent st1 = sent st ++ [api_url ip]
         ∧ get_geolocation_data rel net ip st1 = (Ok o, st1))
  ∧ (∀ st o1 st1,
       IP_CACHE st !! ip = None →
       get_geolocation_data rel net ip st = (Ok o1, st1) →
       is_success (content o1) = true →
       get_geolocation_data rel net ip st1 = (Ok o1, st1)
       ∧ sent (get_geolocation_data rel net ip st1).2 = sent st ++ [api_url ip]).
Proof.
  split; [| split].
  - intros st o. apply lookup_hit.
  - intros st code items Hmiss Hnet Hcode Hok.
    eexists _, _. split; [| split; [| split]].
    + apply (lookup_success rel net ip st code items); try done.
      * destruct (bad_status code) eqn:Hbad; [| done].
        by apply bad_status_iff in Hbad.
      * by apply is_success_iff.
    + done.
    + done.
    + by erewrite lookup_hit by apply lookup_insert_eq.
  - intros st o1 st1 Hmiss Hfirst Hok.
    destruct (lookup_cases rel net ip st)
      as [[o [H _]] | [[_ [_ [_ [_ H]]]] | [_ [_ [o [_ H]]]]]].
    + congruence.
    + rewrite Hfirst in H. specialize (H o1 eq_refl). congruence.
    + rewrite Hfirst in H. injection H as -> ->.
      rewrite lookup_hit with (o := o) by apply lookup_insert_eq.
      done.
Qed.

(** C4 as stated fails: status 300 is not 2xx, yet the success record that
    comes with it is cached. *)
Lemma status_300_success_is_cached :
  let r := Response 300 (Some (VDict mountain_view)) in
  ¬ (200 ≤ status_code r < 300)
  ∧ IP_CACHE fresh !! "8.8.8.8" = None
  ∧ IP_CACHE (get_geolocation_data From_2_27 (always r) "8.8.8.8" fresh).2
      !! "8.8.8.8"
    = Some (Obj 0 (VDict mountain_view)).
Proof.
  intros r. split; [simpl; lia |]. split; [done |]. subst r.
  rewrite (lookup_success From_2_27 _ "8.8.8.8" fresh 300 mountain_view)
    by done.
  apply lookup_insert_eq.
Qed.

(** C4, amended.  A lookup keeps every entry of the cache as it was, and
    either leaves the cache unchanged or adds the single entry "queried address ↦
    the success record just fetched", which happens only for an address
    that was not cached.  When the fetch fails (no response, a 4xx or 5xx
    status, a body that is not JSON, a JSON body that is no success record)
    and, more generally, whenever the lookup does not return a success
    record, the cache is unchanged.  So [n] lookups of an address whose
    fetch never succeeds send [n] calls and cache nothing. *)
Theorem cache_only_grows rel net ip st :
  let after := get_geolocation_data rel net ip st in
  (∀ k o, IP_CACHE st !! k = Some o → IP_CACHE after.2 !! k = Some o)
  ∧ (IP_CACHE after.2 = IP_CACHE st
     ∨ ∃ o, IP_CACHE st !! ip = None
          ∧ fetch_succeeds (net (sent st) (api_url ip)) = true
          ∧ after.1 = Ok o
          ∧ is_success (content o) = true
          ∧ IP_CACHE after.2 = <[ip := o]> (IP_CACHE st))
  ∧ (failure_path (net (sent st) (api_url ip)) →
     IP_CACHE after.2 = IP_CACHE st)
  ∧ ((∀ o, returned after = Some o → is_success (content o) = false) →
     IP_CACHE after.2 = IP_CACHE st)
  ∧ (IP_CACHE st !! ip = None →
     (∀ history, failure_path (net history (api_url ip))) →
     ∀ n,
       sent (repeat_lookup rel net n ip st)
       = sent st ++ replicate n (api_url ip)
       ∧ IP_CACHE (repeat_lookup rel net n ip st) = IP_CACHE st).
Proof.
  intros after. subst after.
  split; [| split; [| split; [| split]]].
  - intros k o Hk.
    destruct (lookup_cases rel net ip st)
      as [[o' [_ ->]] | [[_ [_ [-> _]]] | [Hmiss [_ [o' [_ ->]]]]]];
      [done | done |].
    simpl. rewrite lookup_insert_ne; [done | congruence].
  - destruct (lookup_cases rel net ip st)
      as [[o' [_ ->]] | [[_ [_ [-> _]]] | [Hmiss [Hf [o' [Hok ->]]]]]];
      [by left | by left |].
    right. by exists o'.
  - intros Hfail. apply lookup_failure_keeps_cache.
    by apply failure_path_iff.
  - intros Hres.
    destruct (lookup_cases rel net ip st)
      as [[o' [_ ->]] | [[_ [_ [-> _]]] | [_ [_ [o' [Hok H]]]]]];
      [done | done |].
    rewrite H in Hres. specialize (Hres o' eq_refl). congruence.
  - intros Hmiss Hfail n. apply repeat_lookup_failing; [| done].
    intros history. by apply failure_path_iff.
Qed.

(** C5, at the input on which it fails.  The service answers 200 with a
    body that is not JSON.  With [requests] 2.27 or later [response.json()]
    raises an exception that is a [RequestException], the clause
    [except requests.exceptions.RequestException] comes before
    [except ValueError], and the record returned is the network one.  The
    message the claim names is returned with an older [requests] only. *)
Theorem unparseable_body_is_a_network_error ip :
  let net := always (Response 200 None) in
  get_geolocation_data From_2_27 net ip fresh
  = (Ok (Obj 0 network_error), called ip 1 fresh)
  ∧ get_geolocation_data Before_2_27 net ip fresh
    = (Ok (Obj 0 processing_error), called ip 1 fresh).
Proof.
  intros net. split.
  - by apply (lookup_not_json From_2_27 net ip fresh 200).
  - by apply (lookup_not_json Before_2_27 net ip fresh 200).
Qed.

(** C6 as stated fails: status 300 is not 2xx, it is no error for
    [raise_for_status] either, and the body decides the result. *)
Lemma status_300_is_not_service_unavailable :
  let r := Response 300 (Some (VDict private_range)) in
  ¬ (200 ≤ status_code r < 300)
  ∧ IP_CACHE fresh !! "10.0.0.1" = None
  ∧ returned (get_geolocation_data From_2_27 (always r) "10.0.0.1" fresh)
    = Some (Obj 1 (failure (VStr "private range")))
  ∧ failure (VStr "private range") ≠ service_unavailable.
Proof.
  simpl. repeat split; [lia | done].
Qed.

(** C6, amended.  For an address that is not cached, when the geolocation
    service answers with a 4xx or 5xx status, [get_geolocation_data]
    returns the failure record "Service unavailable or invalid IP.",
    whatever the body is. *)
Theorem lookup_error_status_service_unavailable rel net ip st r :
  IP_CACHE st !! ip = None →
  net (sent st) (api_url ip) = Reply r →
  400 ≤ status_code r < 600 →
  ∃ o st',
    get_geolocation_data rel net ip st = (Ok o, st')
    ∧ content o
      = VDict [("error", VBool true);
               ("message", VStr "Service unavailable or invalid IP.")].
Proof.
  intros Hmiss Hnet Hcode. eexists _, _. split.
  - apply (lookup_bad_status rel net ip st r); try done.
    by apply bad_status_iff.
  - done.
Qed.

(** C7, at inputs on which it fails.  The service answers 200 with a JSON
    document that is no object ([null], [[]], ["fail"], [0]): its status is
    not ["success"] and it provides no message, but [data.get('status')]
    raises [AttributeError], no [except] clause of [get_geolocation_data]
    matches it, and no failure record is returned.  The release of
    [requests] plays no part. *)
Theorem lookup_non_object_answer_raises rel ip :
  let lookup v :=
    get_geolocation_data rel (always (Response 200 (Some v))) ip fresh in
  lookup VNone = (Raise AttributeError, called ip 1 fresh)
  ∧ lookup (VList []) = (Raise AttributeError, called ip 1 fresh)
  ∧ lookup (VStr "fail") = (Raise AttributeError, called ip 1 fresh)
  ∧ lookup (VNum 0 0) = (Raise AttributeError, called ip 1 fresh).
Proof.
  intros lookup. subst lookup.
  repeat split;
    by apply (lookup_not_a_dict rel _ ip fresh 200).
Qed.

(** X6. For an address that is not cached, when the geolocation service
    answers with a 2xx status and a JSON object whose [status] is not
    ["success"] (or is missing), [get_geolocation_data] returns a failure
    record whose message is the [message] item of the answer, or "Failed
    to get geolocation data." when the answer has none; the cache is
    unchanged. *)
Theorem lookup_upstream_failure_message rel net ip st code items :
  IP_CACHE st !! ip = None →
  net (sent st) (api_url ip) = Reply (Response code (Some (VDict items))) →
  200 ≤ code < 300 →
  assoc "status" items ≠ Some (VStr "success") →
  ∃ o st',
    get_geolocation_data rel net ip st = (Ok o, st')
    ∧ content o
      = VDict [("error", VBool true);
               ("message",
                match assoc "message" items with
                | Some m => m
                | None => VStr "Failed to get geolocation data."
                end)]
    ∧ IP_CACHE st' = IP_CACHE st.
Proof.
  intros Hmiss Hnet Hcode Hst. eexists _, _. split; [| split].
  - apply (lookup_upstream_fail rel net ip st code items); try done.
    + by apply ok_status_not_bad.
    + destruct (is_success (VDict items)) eqn:Hs; [| done].
      by apply is_success_iff in Hs.
  - simpl. unfold failure, upstream_message.
    by destruct (assoc "message" items).
  - done.
Qed.

(** ** The claims at concrete inputs *)

Lemma lookup_mountain_view :
  ∃ o st',
    get_geolocation_data From_2_27
      (always (Response 200 (Some (VDict mountain_view)))) "8.8.8.8" fresh
    = (Ok o, st')
    ∧ content o = VDict mountain_view
    ∧ IP_CACHE st' !! "8.8.8.8" = Some o.
Proof.
  apply (lookup_success_returns_and_caches From_2_27
           (always (Response 200 (Some (VDict mountain_view))))
           "8.8.8.8" fresh 200 mountain_view).
  - reflexivity.
  - reflexivity.
  - lia.
  - reflexivity.
Defined.


Lemma lookup_twice_one_call :
  let net := always (Response 200 (Some (VDict mountain_view))) in
  get_geolocation_data From_2_27 offline "8.8.8.8" (warm mountain_view)
  = (Ok (Obj 0 (VDict mountain_view)), warm mountain_view)
  ∧ (∃ o st1,
       get_geolocation_data From_2_27 net "8.8.8.8" fresh = (Ok o, st1)
       ∧ content o = VDict mountain_view
       ∧ sent st1 = [api_url "8.8.8.8"]
       ∧ get_geolocation_data From_2_27 net "8.8.8.8" st1 = (Ok o, st1)).
Proof.
  intros net. split.
  - apply (proj1 (cache_hit_returns_cached_object From_2_27 offline "8.8.8.8")).
    reflexivity.
  - apply (proj1 (proj2 (cache_hit_returns_cached_object From_2_27 net
                           "8.8.8.8"))
             fresh 200 mountain_view).
    + reflexivity.
    + reflexivity.
    + lia.
    + reflexivity.
Defined.

Lemma offline_lookups_cache_nothing :
  IP_CACHE (get_geolocation_data From_2_27 offline "10.0.0.1" fresh).2 = ∅
  ∧ IP_CACHE
      (get_geolocation_data From_2_27
         (always (Response 503 (Some (VDict mountain_view)))) "10.0.0.1"
         fresh).2 = ∅
  ∧ sent (repeat_lookup From_2_27 offline 3 "10.0.0.1" fresh)
    = [api_url "10.0.0.1"; api_url "10.0.0.1"; api_url "10.0.0.1"].
Proof.
  destruct (cache_only_grows From_2_27 offline "10.0.0.1" fresh)
    as (_ & _ & Hfail & _ & Hrepeat).
  destruct (cache_only_grows From_2_27
              (always (Response 503 (Some (VDict mountain_view))))
              "10.0.0.1" fresh)
    as (_ & _ & Hstatus & _ & _).
  split; [| split].
  - apply Hfail. left. by exists Unreachable.
  - apply Hstatus. right. eexists. split; [reflexivity |]. by left.
  - apply (Hrepeat eq_refl
             (λ _, or_introl (ex_intro _ Unreachable eq_refl)) 3%nat).
Defined.

Lemma lookup_status_404 :
  ∃ o st',
    get_geolocation_data From_2_27 (always (Response 404 None)) "8.8.8.8" fresh
    = (Ok o, st')
    ∧ content o
      = VDict [("error", VBool true);
               ("message", VStr "Service unavailable or invalid IP.")].
Proof.
  apply (lookup_error_status_service_unavailable From_2_27
           (always (Response 404 None)) "8.8.8.8" fresh (Response 404 None)).
  - reflexivity.
  - reflexivity.
  - simpl. lia.
Defined.

Lemma lookup_private_range :
  ∃ o st',
    get_geolocation_data From_2_27
      (always (Response 200 (Some (VDict private_range)))) "10.0.0.1" fresh
    = (Ok o, st')
    ∧ content o
      = VDict [("error", VBool true); ("message", VStr "private range")]
    ∧ IP_CACHE st' = IP_CACHE fresh.
Proof.
  apply (lookup_upstream_failure_message From_2_27
           (always (Response 200 (Some (VDict private_range))))
           "10.0.0.1" fresh 200 private_range).
  - reflexivity.
  - reflexivity.
  - lia.
  - simpl. discriminate.
Defined.

Lemma index_unable_instances :
  index From_2_27 offline (Request [] (Some "127.0.0.1")) fresh
  = (Ok (VStr "Unable to fetch public IP", Obj 0 could_not_determine),
     State ∅ 1 [ipify_url])
  ∧ index From_2_27 offline (Request ["Unable to comply, 10.0.0.1"] None) fresh
    = (Ok (VStr "Unable to comply", Obj 0 could_not_determine), State ∅ 1 []).
Proof.
  split.
  - apply (proj1 (handler_unable_skips_lookup From_2_27 offline)
             (Request [] (Some "127.0.0.1")) fresh
             "Unable to fetch public IP" (State ∅ 0 [ipify_url])).
    + reflexivity.
    + reflexivity.
  - apply (proj2 (handler_unable_skips_lookup From_2_27 offline)
             "Unable to comply, 10.0.0.1" [] None fresh).
    reflexivity.
Defined.

(** ** Further properties of the resolver *)

Lemma get_ip_address_loopback_state rel net req st :
  candidate req = VStr "127.0.0.1" →
  (get_ip_address rel net req st).2 = discovered st.
Proof.
  intros Heq. unfold get_ip_address. rewrite Heq. simpl. run.
  destruct (net (sent st) ipify_url) as [f | r]; simpl.
  - by destruct f.
  - destruct (bad_status (status_code r)); simpl; [done |].
    destruct (json_body r) as [v |]; simpl.
    + destruct v as [| | | | | items]; simpl; try done.
      by destruct (assoc "ip" items).
    + by destruct rel.
Qed.

(** X1. For a loopback candidate, when the discovery service answers
    without a 4xx or 5xx status and with a JSON object that has an ["ip"]
    item, [get_ip_address] returns that item as it is (no check that it is
    a string or an address), after exactly one call, to the discovery URL;
    the cache is not touched. *)
Theorem resolve_loopback_returns_discovered rel net req st code items v :
  candidate req = VStr "127.0.0.1" →
  net (sent st) ipify_url = Reply (Response code (Some (VDict items))) →
  ¬ (400 ≤ code < 600) →
  assoc "ip" items = Some v →
  get_ip_address rel net req st
  = (Ok v, State (IP_CACHE st) (next_oid st) (sent st ++ [ipify_url])).
Proof.
  intros Heq Hnet Hcode Hip.
  apply (get_ip_address_discovered rel net req st code items v); try done.
  destruct (bad_status code) eqn:Hbad; [| done].
  by apply bad_status_iff in Hbad.
Qed.

(** X2. For a loopback candidate, when the discovery service cannot be
    reached or answers with a 4xx or 5xx status, [get_ip_address] returns
    the string "Unable to fetch public IP" after its one call, and [index]
    then shows the failure record "Could not determine your IP address."
    without calling the geolocation service. *)
Theorem resolve_loopback_unreachable rel net req st :
  candidate req = VStr "127.0.0.1" →
  ((∃ f, net (sent st) ipify_url = NoReply f)
   ∨ (∃ r, net (sent st) ipify_url = Reply r ∧ 400 ≤ status_code r < 600)) →
  get_ip_address rel net req st
  = (Ok (VStr "Unable to fetch public IP"), discovered st)
  ∧ index rel net req st
    = (Ok (VStr "Unable to fetch public IP",
           Obj (next_oid st) could_not_determine),
       State (IP_CACHE st) (S (next_oid st)) (sent st ++ [ipify_url])).
Proof.
  intros Heq Hnet.
  assert (get_ip_address rel net req st
          = (Ok (VStr "Unable to fetch public IP"), discovered st)) as Hip.
  { destruct Hnet as [[f Hf] | [r [Hr Hcode]]].
    - by apply (get_ip_address_no_reply rel net req st f).
    - apply (get_ip_address_bad_status rel net req st r); try done.
      by apply bad_status_iff. }
  split; [done |].
  by rewrite (index_unable rel net req st _ _ Hip).
Qed.

(** X3. Whatever the request and the network, [get_ip_address] leaves the
    cache and the object counter as they were, and sends either nothing or
    one call, to the discovery URL; it sends that call exactly when the
    candidate is the string ["127.0.0.1"]. *)
Theorem resolve_frame rel net req st :
  let after := (get_ip_address rel net req st).2 in
  IP_CACHE after = IP_CACHE st
  ∧ next_oid after = next_oid st
  ∧ sent after
    = (if eq_str (candidate req) "127.0.0.1"
       then sent st ++ [ipify_url] else sent st).
Proof.
  intros after. subst after.
  destruct (eq_str (candidate req) "127.0.0.1") eqn:Heq.
  - apply eq_str_true in Heq.
    by rewrite get_ip_address_loopback_state.
  - apply eq_str_false in Heq.
    by rewrite get_ip_address_other.
Qed.

(** Single characters in a string. *)
Lemma startswith_empty s : startswith EmptyString s = true.
Proof. by destruct s. Qed.

Lemma contains_char c a t :
  contains (String c EmptyString) (String a t)
  = Ascii.eqb c a || contains (String c EmptyString) t.
Proof.
  change (Ascii.eqb c a && startswith EmptyString t
          || contains (String c EmptyString) t
          = Ascii.eqb c a || contains (String c EmptyString) t).
  by rewrite startswith_empty, andb_true_r.
Qed.

Lemma lstrip_keeps_char c s :
  contains (String c EmptyString) s = false →
  contains (String c EmptyString) (lstrip s) = false.
Proof.
  induction s as [| a t IH]; [done |].
  intros H. simpl lstrip. destruct (isspace a); [| done].
  apply IH. rewrite contains_char in H. by apply orb_false_elim in H as [_ H].
Qed.

Lemma rstrip_keeps_char c s :
  contains (String c EmptyString) s = false →
  contains (String c EmptyString) (rstrip s) = false.
Proof.
  induction s as [| a t IH]; [done |].
  rewrite contains_char. intros H. apply orb_false_elim in H as [Ha Ht].
  specialize (IH Ht). simpl rstrip.
  destruct (rstrip t) as [| b u].
  - destruct (isspace a); [done |].
    rewrite contains_char, Ha. done.
  - by rewrite contains_char, Ha, IH.
Qed.

Lemma rstrip_no_trailing_space s r c :
  rstrip s = r +:+ String c EmptyString → isspace c = false.
Proof.
  revert r. induction s as [| a t IH]; intros r; simpl.
  - by destruct r.
  - destruct (rstrip t) as [| b u] eqn:Ht.
    + destruct (isspace a) eqn:Ha; [by destruct r |].
      destruct r as [| x [| y r]]; [| done | done].
      by intros [= <-].
    + destruct r as [| x r]; [done |].
      intros [= _ Hr]. by apply (IH r).
Qed.


(** ** Further properties of the lookup *)

(** X5. For an address that is not cached, when the geolocation service
    cannot be reached (connection failure, timeout, too many redirects),
    [get_geolocation_data] returns a new failure record "Network error
    while fetching geolocation data."; the call was sent and the cache is
    unchanged. *)
Theorem lookup_transport_failure rel net ip st f :
  IP_CACHE st !! ip = None →
  net (sent st) (api_url ip) = NoReply f →
  get_geolocation_data rel net ip st
  = (Ok (Obj (next_oid st)
           (VDict [("error", VBool true);
                   ("message",
                    VStr "Network error while fetching geolocation data.")])),
     State (IP_CACHE st) (S (next_oid st)) (sent st ++ [api_url ip])).
Proof.
  intros Hmiss Hnet. by apply (lookup_no_reply rel net ip st f).
Qed.

(** X7. A lookup sends no call when the address is cached and exactly one,
    to the URL of that address, when it is not, whatever the service
    answers. *)
Theorem lookup_calls rel net ip st :
  sent (get_geolocation_data rel net ip st).2
  = match IP_CACHE st !! ip with
    | Some _ => sent st
    | None => sent st ++ [api_url ip]
    end.
Proof.
  destruct (lookup_cases rel net ip st)
    as [[o [Hc ->]] | [[Hc [_ [_ [Hs _]]]] | [Hc [_ [o [_ ->]]]]]];
    by rewrite Hc.
Qed.

(** Soundness of the cache is kept by a state that caches the same and has
    sent at least as much. *)
Lemma cache_sound_later st st' :
  cache_sound st →
  IP_CACHE st' = IP_CACHE st →
  (∀ url, url ∈ sent st → url ∈ sent st') →
  cache_sound st'.
Proof.
  intros Hs Hc Hsent ip o Hip. rewrite Hc in Hip.
  destruct (Hs ip o Hip) as [Hok Hin]. auto.
Qed.

Lemma lookup_keeps_sound rel net ip st :
  cache_sound st → cache_sound (get_geolocation_data rel net ip st).2.
Proof.
  intros Hs.
  destruct (lookup_cases rel net ip st)
    as [[o [_ ->]] | [[_ [_ [Hc [Hsent _]]]] | [_ [_ [o [Hok ->]]]]]].
  - done.
  - apply (cache_sound_later st); [done | done |].
    intros url Hurl. rewrite Hsent. set_solver.
  - intros k o' Hk. simpl in *.
    destruct (decide (ip = k)) as [<- | Hne].
    + rewrite lookup_insert_eq in Hk. injection Hk as <-.
      split; [done | set_solver].
    + rewrite lookup_insert_ne in Hk by done.
      destruct (Hs k o' Hk) as [Hok' Hin]. split; [done | set_solver].
Qed.

Lemma resolve_keeps_sound rel net req st :
  cache_sound st → cache_sound (get_ip_address rel net req st).2.
Proof.
  intros Hs. destruct (eq_str (candidate req) "127.0.0.1") eqn:Heq.
  - apply eq_str_true in Heq. rewrite get_ip_address_loopback_state by done.
    apply (cache_sound_later st); [done | done |]. simpl. set_solver.
  - apply eq_str_false in Heq. by rewrite get_ip_address_other.
Qed.

Lemma index_keeps_sound rel net req st :
  cache_sound st → cache_sound (index rel net req st).2.
Proof.
  intros Hs. apply (resolve_keeps_sound rel net req) in Hs.
  unfold index, mbind, py_bind.
  destruct (get_ip_address rel net req st) as [[v | e] st1]; [| done].
  simpl in Hs. unfold py_in.
  assert (∀ b : bool,
    cache_sound
      (match (if b then new_object could_not_determine
              else lookup_value rel net v) st1 with
       | (Ok a, st') => (Ok (v, a), st')
       | (Raise e, st') => (Raise e, st')
       end).2) as Hstep.
  { intros [|].
    - by apply (cache_sound_later st1).
    - unfold lookup_value. destruct v as [| | | s | |]; try done.
      pose proof (lookup_keeps_sound rel net s st1 Hs) as H.
      by destruct (get_geolocation_data rel net s st1) as [[o | e] st2]. }
  destruct v; try done; apply Hstep.
Qed.

(** X8. The cache holds nothing but success records that were fetched for
    their own address: if every cached record has [status] ["success"] and
    the URL of its address among the calls sent, this is still so after any
    list of page requests, whatever the network answers; it is so when the
    process starts. *)
Theorem cache_holds_fetched_successes rel net reqs :
  cache_sound fresh
  ∧ ∀ st, cache_sound st → cache_sound (serve rel net reqs st).
Proof.
  split; [done |].
  induction reqs as [| req rest IH]; intros st Hs; simpl; [done |].
  by apply IH, index_keeps_sound.
Qed.

(** ** Further properties of the handler *)

Lemma index_lookup rel net req st s st1 :
  get_ip_address rel net req st = (Ok (VStr s), st1) →
  contains "Unable" s = false →
  index rel net req st
  = match get_geolocation_data rel net s st1 with
    | (Ok o, st2) => (Ok (VStr s, o), st2)
    | (Raise e, st2) => (Raise e, st2)
    end.
Proof.
  intros Hip Hin. unfold index.
  erewrite bind_ok by exact Hip.
  unfold mbind, py_bind, py_in, mret, py_ret. by rewrite Hin.
Qed.

(** X9. A page request whose address is its own candidate (not the
    loopback string, no ["Unable"] in it) and is not cached, answered by
    the geolocation service with a success record: [index] shows the
    address with that record and caches it, and the same request made
    again shows the same object without any outbound call. *)
Theorem index_second_request_uses_cache rel net req st s code items :
  candidate req = VStr s →
  s ≠ "127.0.0.1" →
  contains "Unable" s = false →
  IP_CACHE st !! s = None →
  net (sent st) (api_url s) = Reply (Response code (Some (VDict items))) →
  ¬ (400 ≤ code < 600) →
  assoc "status" items = Some (VStr "success") →
  ∃ o st1,
    index rel net req st = (Ok (VStr s, o), st1)
    ∧ content o = VDict items
    ∧ IP_CACHE st1 !! s = Some o
    ∧ sent st1 = sent st ++ [api_url s]
    ∧ index rel net req st1 = (Ok (VStr s, o), st1).
Proof.
  intros Hcand Hs Hin Hmiss Hnet Hcode Hok.
  assert (∀ st0, get_ip_address rel net req st0 = (Ok (VStr s), st0)) as Hip.
  { intros st0. rewrite get_ip_address_other; rewrite Hcand; [done |].
    congruence. }
  assert (bad_status code = false) as Hbad.
  { destruct (bad_status code) eqn:Hbad; [| done].
    by apply bad_status_iff in Hbad. }
  apply is_success_iff in Hok.
  eexists _, _. split; [| split; [| split; [| split]]].
  - rewrite (index_lookup rel net req st s st (Hip st) Hin).
    by rewrite (lookup_success rel net s st code items).
  - done.
  - apply lookup_insert_eq.
  - done.
  - erewrite index_lookup by (try apply Hip; done).
    by erewrite lookup_hit by apply lookup_insert_eq.
Qed.

(** X10. For a loopback candidate, when the discovery service names the
    address [s] (a string without ["Unable"]) and the geolocation service
    then answers with a success record, [index] shows [s] with that record
    after two calls, discovery first, and caches the record under [s], not
    under ["127.0.0.1"].  The loopback test is not made again on [s]. *)
Theorem index_loopback_discovers_then_looks_up rel net req st
    code1 found s code2 items :
  candidate req = VStr "127.0.0.1" →
  net (sent st) ipify_url = Reply (Response code1 (Some (VDict found))) →
  ¬ (400 ≤ code1 < 600) →
  assoc "ip" found = Some (VStr s) →
  contains "Unable" s = false →
  IP_CACHE st !! s = None →
  net (sent st ++ [ipify_url]) (api_url s)
  = Reply (Response code2 (Some (VDict items))) →
  ¬ (400 ≤ code2 < 600) →
  assoc "status" items = Some (VStr "success") →
  index rel net req st
  = (Ok (VStr s, Obj (next_oid st) (VDict items)),
     State (<[s := Obj (next_oid st) (VDict items)]> (IP_CACHE st))
           (S (next_oid st)) (sent st ++ [ipify_url; api_url s])).
Proof.
  intros Hcand Hnet1 Hcode1 Hip Hin Hmiss Hnet2 Hcode2 Hok.
  assert (∀ code, ¬ (400 ≤ code < 600) → bad_status code = false) as Hbad.
  { intros code Hcode. destruct (bad_status code) eqn:Hb; [| done].
    by apply bad_status_iff in Hb. }
  rewrite (index_lookup rel net req st s (discovered st)); [| | done].
  - rewrite (lookup_success rel net s (discovered st) code2 items);
      try done; [| by apply Hbad | by apply is_success_iff].
    simpl. by rewrite <- app_assoc.
  - apply (get_ip_address_discovered rel net req st code1 found); auto.
Qed.

(** X11. [index] applies [in] and the cache lookup to whatever the
    resolver returned.  When that is [None] (no [X-Forwarded-For] and no
    remote address), or the number, [true], [false] or [null] a discovery
    answer has under ["ip"], ["Unable" in user_ip] raises [TypeError] and
    the request fails with it; nothing is looked up. *)
Theorem index_rejects_non_string_address rel net req st v st1 :
  get_ip_address rel net req st = (Ok v, st1) →
  (v = VNone ∨ (∃ b, v = VBool b) ∨ (∃ m e, v = VNum m e)) →
  index rel net req st = (Raise TypeError, st1).
Proof.
  intros Hip Hv. unfold index.
  erewrite bind_ok by exact Hip.
  by destruct Hv as [-> | [[b ->] | [m [e ->]]]].
Qed.

(** ** The template files *)

Lemma ensure_step name (fs : gmap string node) :
  (if negb (bool_decide (is_Some (fs !! name)))
   then λ fs0 : gmap string node,
          match match fs0 !! name with
                | Some _ => Failed FileExistsError
                | None => Done (<[name := Dir ∅]> fs0)
                end
          with
          | Done fs' => (Done tt, fs')
          | Failed e => (Failed e, fs0)
          end
   else λ fs0, (Done tt, fs0)) fs
  = (Done tt, ensure_dir name fs).
Proof.
  unfold ensure_dir. destruct (fs !! name) as [n |] eqn:H.
  - by rewrite bool_decide_eq_true_2 by eauto.
  - rewrite bool_decide_eq_false_2 by (by intros [? ?]). simpl. by rewrite H.
Qed.

(** The function in three steps: both directories are seen to, then the
    page is written, then the style sheet. *)
Lemma create_template_files_steps html css fs :
  create_template_files html css fs =
  match write_file "templates/index.html" html
          (ensure_dir "static" (ensure_dir "templates" fs)) with
  | (Done _, fs2) => write_file "static/style.css" css fs2
  | (Failed e, fs2) => (Failed e, fs2)
  end.
Proof.
  unfold create_template_files, mbind, io_bind, os_path_exists, os_makedirs,
    mret, io_ret.
  change (split "/" "templates") with ["templates"].
  change (split "/" "static") with ["static"].
  cbn [node_at makedirs_at].
  rewrite ensure_step. by rewrite ensure_step.
Qed.

Lemma write_file_in d f path data fs :
  split "/" path = [d; f] →
  write_file path data fs
  = match fs !! d with
    | None => (Failed FileNotFoundError, fs)
    | Some (File _) => (Failed NotADirectoryError, fs)
    | Some (Dir sub) =>
        match sub !! f with
        | Some (Dir _) => (Failed IsADirectoryError, fs)
        | _ => (Done tt, with_file d f data fs)
        end
    end.
Proof.
  intros Hp. unfold write_file, with_file, entries_of. rewrite Hp. simpl.
  destruct (fs !! d) as [[x | sub] |]; try done.
  by destruct (sub !! f) as [[y | z] |].
Qed.

(** Case analysis on what [templates], [static] and the two files are. *)
Ltac fs_cases fs :=
  rewrite create_template_files_steps;
  rewrite (write_file_in "templates" "index.html") by reflexivity;
  unfold ensure_dir, can_hold, with_file, entries_of in *;
  destruct (fs !! "templates") as [[dt | st] |] eqn:Ht;
  destruct (fs !! "static") as [[ds | ss] |] eqn:Hs;
  simplify_map_eq;
  try destruct (st !! "index.html") as [[di | si] |] eqn:Hi;
  simplify_map_eq;
  try (rewrite (write_file_in "static" "style.css") by reflexivity;
       unfold with_file, entries_of);
  simplify_map_eq;
  try destruct (ss !! "style.css") as [[dc | sc] |] eqn:Hc;
  simplify_map_eq.

(** Two directories with the same entries under every name. *)
Ltac same_directory :=
  f_equal; apply map_eq;
  intros k;
  destruct (decide (k = "static")) as [-> | ?];
    [| destruct (decide (k = "templates")) as [-> | ?]];
  by simplify_map_eq.

Lemma create_template_files_ok html css fs :
  can_hold "templates" "index.html" fs = true →
  can_hold "static" "style.css" fs = true →
  create_template_files html css fs
  = (Done tt,
     with_file "static" "style.css" css
       (with_file "templates" "index.html" html fs)).
Proof.
  intros H1 H2. fs_cases fs.
  all: try done.
  all: same_directory.
Qed.

Lemma create_template_files_done html css fs :
  (create_template_files html css fs).1 = Done tt →
  can_hold "templates" "index.html" fs = true
  ∧ can_hold "static" "style.css" fs = true.
Proof.
  fs_cases fs; done.
Qed.

Lemma read_back html css fs :
  let fs' := with_file "static" "style.css" css
               (with_file "templates" "index.html" html fs) in
  read_file "templates/index.html" fs' = Some html
  ∧ read_file "static/style.css" fs' = Some css.
Proof.
  unfold read_file, with_file.
  change (split "/" "templates/index.html") with ["templates"; "index.html"].
  change (split "/" "static/style.css") with ["static"; "style.css"].
  cbn [node_at]. by simplify_map_eq.
Qed.

Lemma written_can_hold html css fs :
  let fs' := with_file "static" "style.css" css
               (with_file "templates" "index.html" html fs) in
  can_hold "templates" "index.html" fs' = true
  ∧ can_hold "static" "style.css" fs' = true
  ∧ with_file "static" "style.css" css
      (with_file "templates" "index.html" html fs') = fs'.
Proof.
  unfold can_hold, with_file, entries_of. simplify_map_eq.
  repeat split.
  apply map_eq. intros k.
  destruct (decide (k = "static")) as [-> | ?];
    [| destruct (decide (k = "templates")) as [-> | ?]];
    simplify_map_eq; try done.
  - by rewrite insert_insert_eq.
  - by rewrite insert_insert_eq.
Qed.

(** X12. When [templates] is absent or a directory in which [index.html]
    is not a directory, and likewise [static] with [style.css],
    [create_template_files] succeeds, and afterwards
    [templates/index.html] holds the page and [static/style.css] the style
    sheet, whatever the two files held before. *)
Theorem template_files_are_written html css fs :
  can_hold "templates" "index.html" fs = true →
  can_hold "static" "style.css" fs = true →
  ∃ fs',
    create_template_files html css fs = (Done tt, fs')
    ∧ read_file "templates/index.html" fs' = Some html
    ∧ read_file "static/style.css" fs' = Some css.
Proof.
  intros H1 H2. eexists. split.
  - by apply create_template_files_ok.
  - apply read_back.
Qed.

(** X13. How [create_template_files] fails, and what it has done by then.
    If [templates] is a regular file, or [templates/index.html] a
    directory, the first [open] raises ([NotADirectoryError],
    [IsADirectoryError]) after [static] has been made, and nothing is
    written.  If it is [static] that is a regular file, or
    [static/style.css] a directory, the second [open] raises after the
    page has been written. *)
Theorem template_files_partial_failure html css fs :
  (∀ d, fs !! "templates" = Some (File d) →
     create_template_files html css fs
     = (Failed NotADirectoryError, ensure_dir "static" fs))
  ∧ (∀ sub sub2,
       fs !! "templates" = Some (Dir sub) →
       sub !! "index.html" = Some (Dir sub2) →
       create_template_files html css fs
       = (Failed IsADirectoryError, ensure_dir "static" fs))
  ∧ (can_hold "templates" "index.html" fs = true →
     ∀ d, fs !! "static" = Some (File d) →
       create_template_files html css fs
       = (Failed NotADirectoryError,
          with_file "templates" "index.html" html fs))
  ∧ (can_hold "templates" "index.html" fs = true →
     ∀ sub sub2,
       fs !! "static" = Some (Dir sub) →
       sub !! "style.css" = Some (Dir sub2) →
       create_template_files html css fs
       = (Failed IsADirectoryError,
          with_file "templates" "index.html" html fs)).
Proof.
  split; [| split; [| split]].
  - intros d Hd. fs_cases fs; done.
  - intros sub sub2 Hd Hi'. fs_cases fs; done.
  - intros H1 d Hd. fs_cases fs; try done; same_directory.
  - intros H1 sub sub2 Hd Hc'. fs_cases fs; try done; same_directory.
Qed.

(** X14. Running [create_template_files] again after a run that succeeded
    succeeds and changes nothing. *)
Theorem template_files_idempotent html css fs fs1 :
  create_template_files html css fs = (Done tt, fs1) →
  create_template_files html css fs1 = (Done tt, fs1).
Proof.
  intros Hrun.
  destruct (create_template_files_done html css fs) as [H1 H2].
  { by rewrite Hrun. }
  rewrite create_template_files_ok in Hrun by done.
  injection Hrun as <-.
  destruct (written_can_hold html css fs) as (H1' & H2' & Hsame).
  rewrite create_template_files_ok by done. by rewrite Hsame.
Qed.

(** X15. Whether it succeeds or fails, [create_template_files] touches
    nothing but [templates/index.html] and [static/style.css] (and the two
    directories, when it has to make them): every other entry of the
    working directory, and every other entry of [templates] and of
    [static], is as before. *)
Theorem template_files_frame html css fs name :
  let fs' := (create_template_files html css fs).2 in
  (name ≠ "templates" → name ≠ "static" → fs' !! name = fs !! name)
  ∧ (name ≠ "index.html" →
     entries_of "templates" fs' !! name = entries_of "templates" fs !! name)
  ∧ (name ≠ "style.css" →
     entries_of "static" fs' !! name = entries_of "static" fs !! name).
Proof.
  intros fs'. subst fs'. split; [| split].
  - intros H1 H2. fs_cases fs; by simplify_map_eq.
  - intros Hf. fs_cases fs; unfold entries_of; by simplify_map_eq.
  - intros Hf. fs_cases fs; unfold entries_of; by simplify_map_eq.
Qed.

(** ** The further properties at concrete inputs *)

Lemma resolve_loopback_discovers_address :
  get_ip_address From_2_27 (services "203.0.113.7" mountain_view)
    (Request [] (Some "127.0.0.1")) fresh
  = (Ok (VStr "203.0.113.7"), State ∅ 0 [ipify_url]).
Proof.
  apply (resolve_loopback_returns_discovered From_2_27
           (services "203.0.113.7" mountain_view)
           (Request [] (Some "127.0.0.1")) fresh
           200 [("ip", VStr "203.0.113.7")] (VStr "203.0.113.7")).
  - reflexivity.
  - reflexivity.
  - lia.
  - reflexivity.
Defined.

Lemma resolve_loopback_offline :
  get_ip_address From_2_27 offline (Request ["127.0.0.1"] None) fresh
  = (Ok (VStr "Unable to fetch public IP"), discovered fresh)
  ∧ index From_2_27 offline (Request ["127.0.0.1"] None) fresh
    = (Ok (VStr "Unable to fetch public IP", Obj 0 could_not_determine),
       State ∅ 1 [ipify_url]).
Proof.
  apply (resolve_loopback_unreachable From_2_27 offline
           (Request ["127.0.0.1"] None) fresh).
  - reflexivity.
  - left. exists Unreachable. reflexivity.
Defined.

Lemma lookup_offline :
  get_geolocation_data From_2_27 offline "8.8.8.8" fresh
  = (Ok (Obj 0 network_error), State ∅ 1 [api_url "8.8.8.8"]).
Proof.
  apply (lookup_transport_failure From_2_27 offline "8.8.8.8" fresh
           Unreachable).
  - reflexivity.
  - reflexivity.
Defined.

Lemma cache_sound_after_three_requests :
  cache_sound
    (serve From_2_27 (services "203.0.113.7" mountain_view)
       [Request [] (Some "127.0.0.1"); Request ["Unable"] None;
        Request [] (Some "198.51.100.4")]
       fresh).
Proof.
  apply (proj2 (cache_holds_fetched_successes From_2_27
                  (services "203.0.113.7" mountain_view)
                  [Request [] (Some "127.0.0.1"); Request ["Unable"] None;
                   Request [] (Some "198.51.100.4")])).
  apply (proj1 (cache_holds_fetched_successes From_2_27 offline [])).
Defined.

Lemma index_same_visitor_twice :
  let net := always (Response 200 (Some (VDict mountain_view))) in
  let req := Request ["8.8.8.8, 10.0.0.1"] (Some "10.0.0.1") in
  ∃ o st1,
    index From_2_27 net req fresh = (Ok (VStr "8.8.8.8", o), st1)
    ∧ content o = VDict mountain_view
    ∧ IP_CACHE st1 !! "8.8.8.8" = Some o
    ∧ sent st1 = [api_url "8.8.8.8"]
    ∧ index From_2_27 net req st1 = (Ok (VStr "8.8.8.8", o), st1).
Proof.
  intros net req.
  apply (index_second_request_uses_cache From_2_27 net req fresh
           "8.8.8.8" 200 mountain_view).
  - reflexivity.
  - discriminate.
  - reflexivity.
  - reflexivity.
  - reflexivity.
  - lia.
  - reflexivity.
Defined.

Lemma index_local_visitor :
  index From_2_27 (services "203.0.113.7" mountain_view)
    (Request [] (Some "127.0.0.1")) fresh
  = (Ok (VStr "203.0.113.7", Obj 0 (VDict mountain_view)),
     State {[ "203.0.113.7" := Obj 0 (VDict mountain_view) ]} 1
           [ipify_url; api_url "203.0.113.7"]).
Proof.
  apply (index_loopback_discovers_then_looks_up From_2_27
           (services "203.0.113.7" mountain_view)
           (Request [] (Some "127.0.0.1")) fresh
           200 [("ip", VStr "203.0.113.7")] "203.0.113.7" 200 mountain_view).
  - reflexivity.
  - reflexivity.
  - lia.
  - reflexivity.
  - reflexivity.
  - reflexivity.
  - reflexivity.
  - lia.
  - reflexivity.
Defined.

Lemma index_without_remote_address :
  index From_2_27 offline (Request [] None) fresh = (Raise TypeError, fresh).
Proof.
  apply (index_rejects_non_string_address From_2_27 offline
           (Request [] None) fresh VNone fresh).
  - reflexivity.
  - left. reflexivity.
Defined.

Lemma template_files_over_earlier_run :
  ∃ fs',
    create_template_files "<html>" "body {}" earlier_run = (Done tt, fs')
    ∧ read_file "templates/index.html" fs' = Some "<html>"
    ∧ read_file "static/style.css" fs' = Some "body {}".
Proof.
  apply (template_files_are_written "<html>" "body {}" earlier_run).
  - reflexivity.
  - reflexivity.
Defined.

Lemma template_files_blocked :
  create_template_files "<html>" "body {}" templates_is_a_file
  = (Failed NotADirectoryError,
     <["static" := Dir ∅]> templates_is_a_file).
Proof.
  apply (proj1 (template_files_partial_failure "<html>" "body {}"
                  templates_is_a_file) "not a directory").
  reflexivity.
Defined.

Lemma template_files_twice :
  let fs1 := with_file "static" "style.css" "body {}"
               (with_file "templates" "index.html" "<html>" earlier_run) in
  create_template_files "<html>" "body {}" fs1 = (Done tt, fs1).
Proof.
  intros fs1.
  apply (template_files_idempotent "<html>" "body {}" earlier_run fs1).
  reflexivity.
Defined.

Lemma template_files_keep_notes :
  (create_template_files "<html>" "body {}" earlier_run).2 !! "notes.txt"
  = Some (File "keep")
  ∧ entries_of "templates"
      (create_template_files "<html>" "body {}" earlier_run).2 !! "about.html"
    = Some (File "about").
Proof.
  destruct (template_files_frame "<html>" "body {}" earlier_run "notes.txt")
    as (Htop & _ & _).
  destruct (template_files_frame "<html>" "body {}" earlier_run "about.html")
    as (_ & Hin & _).
  split.
  - rewrite Htop; [reflexivity | discriminate | discriminate].
  - rewrite Hin; [reflexivity | discriminate].
Defined.

(** ** The candidate address against its description *)

Lemma app_cons c r x : String c r +:+ x = String c (r +:+ x).
Proof. reflexivity. Qed.

Lemma app_empty_r s : s +:+ EmptyString = s.
Proof. induction s as [| c r IH]; [done |]. by rewrite app_cons, IH. Qed.

Lemma all_space_lstrip s : all_space s = true → lstrip s = EmptyString.
Proof.
  induction s as [| c r IH]; [done |]. simpl.
  intros [Hc Hr]%andb_true_iff. rewrite Hc. auto.
Qed.

Lemma all_space_rstrip s : all_space s = true → rstrip s = EmptyString.
Proof.
  induction s as [| c r IH]; [done |]. simpl.
  intros [Hc Hr]%andb_true_iff. by rewrite (IH Hr), Hc.
Qed.

Lemma lstrip_split s : ∃ lead, s = lead +:+ lstrip s ∧ all_space lead = true.
Proof.
  induction s as [| c r [lead [IH Hl]]]; [by exists EmptyString |].
  simpl. destruct (isspace c) eqn:Hc.
  - exists (String c lead). rewrite app_cons, <- IH. simpl. by rewrite Hc.
  - by exists EmptyString.
Qed.

Lemma rstrip_split s : ∃ trail, s = rstrip s +:+ trail ∧ all_space trail = true.
Proof.
  induction s as [| c r [trail [IH Ht]]]; [by exists EmptyString |].
  simpl. destruct (rstrip r) as [| b u] eqn:Hr.
  - destruct (isspace c) eqn:Hc.
    + exists (String c r). split; [done |]. simpl. rewrite Hc.
      change (EmptyString +:+ trail) with trail in IH. by rewrite IH.
    + exists r. split; [done |].
      change (EmptyString +:+ trail) with trail in IH. by rewrite IH.
  - exists trail. split; [| done].
    change (String c r = String c (String b u +:+ trail)). by rewrite <- IH.
Qed.

Lemma lstrip_after_space lead x :
  all_space lead = true → lstrip (lead +:+ x) = lstrip x.
Proof.
  induction lead as [| c r IH]; [done |]. simpl.
  intros [Hc Hr]%andb_true_iff. rewrite Hc. auto.
Qed.

Lemma rstrip_before_space x trail :
  all_space trail = true → rstrip (x +:+ trail) = rstrip x.
Proof.
  intros Ht. induction x as [| c r IH].
  - by apply all_space_rstrip.
  - rewrite app_cons. simpl. by rewrite IH.
Qed.

Lemma rstrip_fixed s :
  (∀ r c, s = r +:+ String c EmptyString → isspace c = false) →
  rstrip s = s.
Proof.
  induction s as [| a t IH]; [done |]. intros Hend. simpl.
  rewrite IH.
  - destruct t as [| b u]; [| done].
    by rewrite (Hend EmptyString a).
  - intros r c ->. by apply (Hend (String a r) c).
Qed.

Lemma strip_is_trimmed l : trimmed l (strip l).
Proof.
  split; [| split].
  - destruct (lstrip_split l) as [lead [Hl Hlead]].
    destruct (rstrip_split (lstrip l)) as [trail [Hr Htrail]].
    exists lead, trail. split; [| done].
    unfold strip. by rewrite <- Hr.
  - intros c r. apply strip_head.
  - intros r c. unfold strip. apply rstrip_no_trailing_space.
Qed.

Lemma trimmed_is_strip l s : trimmed l s → s = strip l.
Proof.
  intros [[lead [trail [-> [Hlead Htrail]]]] [Hfirst Hlast]].
  unfold strip. rewrite lstrip_after_space by done.
  destruct s as [| c r].
  - change (EmptyString +:+ trail) with trail.
    by rewrite all_space_lstrip.
  - rewrite app_cons. simpl lstrip. rewrite (Hfirst c r eq_refl).
    rewrite <- app_cons, rstrip_before_space by done.
    by rewrite rstrip_fixed.
Qed.

Lemma first_field_no_comma_id f : contains "," f = false → first_field f = f.
Proof.
  induction f as [| c r IH]; [done |].
  rewrite contains_char, first_field_cons.
  intros [Hc Hr]%orb_false_elim.
  rewrite Ascii.eqb_sym, Hc. by rewrite IH.
Qed.

Lemma first_field_before_comma f more :
  contains "," f = false → first_field (f +:+ String "," more) = f.
Proof.
  induction f as [| c r IH]; [done |].
  rewrite contains_char, app_cons, first_field_cons.
  intros [Hc Hr]%orb_false_elim.
  rewrite Ascii.eqb_sym, Hc. by rewrite IH.
Qed.

Lemma first_comma_value_iff v f : first_comma_value v f ↔ f = first_field v.
Proof.
  split.
  - intros [Hno [-> | [more ->]]].
    + by rewrite first_field_no_comma_id.
    + by rewrite first_field_before_comma.
  - intros ->. split; [apply first_field_no_comma | apply first_field_prefix].
Qed.

Lemma described_candidate_iff req c :
  described_candidate req c ↔ c = candidate req.
Proof.
  unfold described_candidate, candidate, remote_value.
  destruct (x_forwarded_for req) as [| v rest]; [done |].
  split.
  - intros (f & s & Hf & Hs & ->).
    apply first_comma_value_iff in Hf as ->.
    by apply trimmed_is_strip in Hs as ->.
  - intros ->. exists (first_field v), (strip (first_field v)).
    split; [by apply first_comma_value_iff |].
    split; [apply strip_is_trimmed | done].
Qed.

(** A header value with white space around its first field. *)
Lemma sample_header_described :
  first_comma_value "  203.0.113.7 , 10.0.0.1" "  203.0.113.7 "
  ∧ trimmed "  203.0.113.7 " "203.0.113.7".
Proof.
  split; [split | split; [| split]].
  - reflexivity.
  - right. by exists " 10.0.0.1".
  - by exists "  ", " ".
  - by intros c r [= <- _].
  - intros r c H. by apply (rstrip_no_trailing_space "203.0.113.7" r c).
Qed.

(** C1 as stated fails when "present and non-empty" is read of the header's
    value: for a header sent with an empty value the claim's candidate is
    the remote address, which is not the loopback string, and
    [get_ip_address] returns the empty string. *)
Lemma empty_forwarded_value_is_returned :
  let req := Request [""] (Some "10.0.0.1") in
  candidate_by_value req = VStr "10.0.0.1"
  ∧ candidate_by_value req ≠ VStr "127.0.0.1"
  ∧ get_ip_address From_2_27 offline req fresh = (Ok (VStr ""), fresh)
  ∧ VStr "" ≠ candidate_by_value req.
Proof.
  intros req. by repeat split.
Qed.

(** C1, amended.  For every request whose candidate IP (the first
    comma-separated value of the first [X-Forwarded-For] value, trimmed of
    white space, when the request carries at least one [X-Forwarded-For]
    value, empty or not; the remote address otherwise) is not
    ["127.0.0.1"], [get_ip_address] returns that candidate unchanged and
    leaves the state as it was: no URL is added to the calls sent. *)
Theorem resolve_returns_candidate rel net req st c :
  described_candidate req c →
  c ≠ VStr "127.0.0.1" →
  get_ip_address rel net req st = (Ok c, st)
  ∧ sent (get_ip_address rel net req st).2 = sent st.
Proof.
  intros Hc Hne. apply described_candidate_iff in Hc as ->.
  by rewrite get_ip_address_other.
Qed.

Lemma resolve_returns_candidate_forwarded :
  let req := Request ["  203.0.113.7 , 10.0.0.1"; "192.0.2.1"]
               (Some "10.0.0.1") in
  get_ip_address From_2_27 offline req fresh = (Ok (VStr "203.0.113.7"), fresh)
  ∧ sent (get_ip_address From_2_27 offline req fresh).2 = [].
Proof.
  intros req.
  apply (resolve_returns_candidate From_2_27 offline req fresh
           (VStr "203.0.113.7")).
  - exists "  203.0.113.7 ", "203.0.113.7".
    destruct sample_header_described as [Hf Hs]. by split.
  - discriminate.
Defined.

(** X4. The address taken from [X-Forwarded-For] is exactly the first
    comma-separated value of the first header value, trimmed of white
    space: that string fits the description, no other string does, and it
    is the candidate whatever the later header values and the remote
    address are. *)
Theorem forwarded_candidate_is_described v :
  ∃ s,
    (∃ f, first_comma_value v f ∧ trimmed f s)
    ∧ (∀ f s', first_comma_value v f → trimmed f s' → s' = s)
    ∧ (∀ rest remote, candidate (Request (v :: rest) remote) = VStr s).
Proof.
  exists (strip (first_field v)). split; [| split].
  - exists (first_field v). split.
    + by apply first_comma_value_iff.
    + apply strip_is_trimmed.
  - intros f s' Hf Hs. apply first_comma_value_iff in Hf as ->.
    by apply trimmed_is_strip.
  - done.
Qed.

Lemma forwarded_candidate_of_sample_header :
  candidate (Request ["  203.0.113.7 , 10.0.0.1"; "192.0.2.1"] None)
  = VStr "203.0.113.7".
Proof.
  destruct (forwarded_candidate_is_described "  203.0.113.7 , 10.0.0.1")
    as (s & _ & Honly & Hcand).
  rewrite Hcand. f_equal. symmetry.
  destruct sample_header_described as [Hf Hs].
  exact (Honly _ _ Hf Hs).
Defined.
